(** * linear_fetch.py: credential resolution, identifier parsing and
      response handling of the Linear task planner fetch script.

    A shallow embedding of [skills/linear-task-planner/scripts/linear_fetch.py].

    Modelling conventions.
    - A Python [str] is a [string]; each character stands for a code point
      below 256.  [str.lower], [str.strip] and [str.splitlines] are written
      out for that range ([py_upper] only for ASCII: its one call site
      receives a match of [[A-Za-z][A-Za-z0-9_]*]).
    - The identifier parser is the one function whose behaviour depends
      on code points beyond that range (whitespace and decimal digits of
      every script): it is given a second time on lists of code points,
      in [Unicode], and the two are proved to agree below 256.
    - [Optional[str]] is [option string]; Python truthiness is [truthy].
    - A decoded JSON document is a [json]; a [dict] is a [gmap].
    - Exceptions are values of [exn]; code that can raise returns
      [exn + A]; code that touches files, the process environment, the
      network or the standard streams runs in the monad [M], which reads a
      [World] and logs every interaction as an [event].  Writing a file
      and creating a directory fail as the [World] says; an existence
      probe answers yes or no. *)

From Stdlib Require Import String Ascii List ZArith NArith Bool Lia.
From Stdlib Require Import DecimalString.
From stdpp Require Import gmap strings.

Import ListNotations.
Local Open Scope string_scope.

(** ** Python strings *)

Module PyStr.

Definition chars (s : string) : list ascii := list_ascii_of_string s.
Definition str (l : list ascii) : string := string_of_list_ascii l.

Definition code (c : ascii) : N := N_of_ascii c.

Definition in_range (lo hi n : N) : bool := (lo <=? n)%N && (n <=? hi)%N.

(** [str.isspace] on one character (code points below 256). *)
Definition isspace (c : ascii) : bool :=
  let n := code c in
  in_range 9 13 n || in_range 28 32 n || (n =? 133)%N || (n =? 160)%N.

(** [str.lower] on one character: A-Z and the Latin-1 capitals. *)
Definition lower_char (c : ascii) : ascii :=
  let n := code c in
  if in_range 65 90 n || (in_range 192 222 n && negb (n =? 215)%N)
  then ascii_of_N (n + 32) else c.

(** [str.upper] on one ASCII character. *)
Definition upper_char (c : ascii) : ascii :=
  let n := code c in
  if in_range 97 122 n then ascii_of_N (n - 32) else c.

Definition is_letter (c : ascii) : bool :=
  let n := code c in in_range 65 90 n || in_range 97 122 n.

Definition is_digit (c : ascii) : bool := in_range 48 57 (code c).

(** [[A-Za-z0-9_]] *)
Definition is_word (c : ascii) : bool :=
  is_letter c || is_digit c || (code c =? 95)%N.

Definition py_lower (s : string) : string := str (map lower_char (chars s)).
Definition py_upper (s : string) : string := str (map upper_char (chars s)).

Fixpoint drop_while (p : ascii -> bool) (l : list ascii) : list ascii :=
  match l with
  | [] => []
  | c :: l' => if p c then drop_while p l' else l
  end.

Definition drop_while_end (p : ascii -> bool) (l : list ascii) : list ascii :=
  rev (drop_while p (rev l)).

Definition strip_by (p : ascii -> bool) (l : list ascii) : list ascii :=
  drop_while_end p (drop_while p l).

(** [s.strip()] *)
Definition py_strip (s : string) : string := str (strip_by isspace (chars s)).

Definition one_of (cs : string) (c : ascii) : bool :=
  existsb (Ascii.eqb c) (chars cs).

(** [s.strip(cs)]: every leading and trailing character that occurs in
    [cs] is removed. *)
Definition py_strip_chars (cs s : string) : string :=
  str (strip_by (one_of cs) (chars s)).

(** [s.startswith(p)] *)
Definition startswith (p s : string) : bool := String.prefix p s.

(** [c in s] for a one-character string [c]. *)
Definition contains (c : ascii) (s : string) : bool :=
  existsb (Ascii.eqb c) (chars s).

(** [s[n:]] *)
Definition slice_from (n : nat) (s : string) : string :=
  str (skipn n (chars s)).

Fixpoint split_at (c : ascii) (l : list ascii) : list ascii * list ascii :=
  match l with
  | [] => ([], [])
  | x :: l' =>
      if Ascii.eqb x c then ([], l')
      else let '(a, b) := split_at c l' in (x :: a, b)
  end.

(** [s.split(c, 1)] for a string [s] that contains [c]. *)
Definition split_once (c : ascii) (s : string) : string * string :=
  let '(a, b) := split_at c (chars s) in (str a, str b).

(** [sep.join(l)] *)
Definition join (sep : string) (l : list string) : string :=
  String.concat sep l.

(** Truthiness of a [str]. *)
Definition nonempty (s : string) : bool :=
  match s with EmptyString => false | _ => true end.

(** [x in {a, b}] for strings. *)
Definition member (x : string) (l : list string) : bool :=
  existsb (String.eqb x) l.

End PyStr.
Import PyStr.

(** Truthiness of an [Optional[str]]. *)
Definition truthy (o : option string) : bool :=
  match o with Some s => nonempty s | None => false end.

(** ** Authorization header *)

Definition format_auth_header (token : string) (scheme : option string) : string :=
  let no_hint :=
    if startswith "bearer " (py_lower token) then token
    else if contains " " token then token
    else token in
  match scheme with
  | Some s =>
      if nonempty s then
        let scheme_value := py_lower (py_strip s) in
        if member scheme_value ["bearer"; "oauth"] then
          if startswith "bearer " (py_lower token) then token
          else "Bearer " ++ token
        else if member scheme_value ["raw"; "token"] then token
        else no_hint
      else no_hint
  | None => no_hint
  end.

(** ** Exceptions and decoded JSON *)

Inductive exn : Type :=
| RuntimeError (msg : string)
| ValueError (msg : string)
| JSONDecodeError
| TypeError
| AttributeError
| OverflowError
| OSError (path : string)             (* [read_text] of what is not a file *)
| HTTPFault                       (* URLError and the like, from [urlopen] *)
| SystemExit (status : Z) (msg : string).   (* [parser.error] *)

Definition result (A : Type) : Type := exn + A.

Definition rbind {A B} (r : result A) (k : A -> result B) : result B :=
  match r with inl e => inl e | inr a => k a end.

Notation "'let?' x := r 'in' k" := (rbind r (fun x => k))
  (at level 10, x name, k at level 200).

(** What [json.loads] returns.  [JFloat m e] is the double [m * 2^e];
    Python's [None] is [JNull]. *)
#[warnings="-register-all"] Inductive json : Type :=
| JNull
| JBool (b : bool)
| JInt (z : Z)
| JFloat (m e : Z)
| JStr (s : string)
| JList (l : list json)
| JObj (d : gmap string json).

(** Python truthiness of a decoded value. *)
Definition json_truthy (v : json) : bool :=
  match v with
  | JNull => false
  | JBool b => b
  | JInt z => negb (z =? 0)%Z
  | JFloat m _ => negb (m =? 0)%Z
  | JStr s => nonempty s
  | JList l => match l with [] => false | _ => true end
  | JObj d => negb (Nat.eqb (size d) 0)
  end.

Definition of_opt (o : option string) : json :=
  match o with Some s => JStr s | None => JNull end.

(** [v.get(k, dflt)]: only a dict has [get]. *)
Definition py_get (v : json) (k : string) (dflt : json) : result json :=
  match v with
  | JObj d => inr (default dflt (d !! k))
  | _ => inl AttributeError
  end.

(** [len(v)] *)
Definition py_len (v : json) : result nat :=
  match v with
  | JStr s => inr (String.length s)
  | JList l => inr (List.length l)
  | JObj d => inr (size d)
  | _ => inl TypeError
  end.

(** [sep.join(f(x) for x in xs)].  [join] first runs the generator to its
    end, so whatever [f] raises comes first, in the order of the items;
    only then does it reject the first item that is not a [str]. *)
Fixpoint eval_items (f : json -> result json) (xs : list json) : result (list json) :=
  match xs with
  | [] => inr []
  | x :: xs' =>
      let? v := f x in
      let? rest := eval_items f xs' in
      inr (v :: rest)
  end.

Fixpoint all_strings (vs : list json) : result (list string) :=
  match vs with
  | [] => inr []
  | JStr s :: vs' => let? rest := all_strings vs' in inr (s :: rest)
  | _ :: _ => inl TypeError
  end.

Definition join_items (f : json -> result json) (xs : list json) : result (list string) :=
  let? vs := eval_items f xs in
  all_strings vs.

(** Iterating a decoded value: a list gives its items, a dict its keys, a
    string its characters; nothing else is iterable. *)
Definition py_iter (v : json) : result (list json) :=
  match v with
  | JList l => inr l
  | JObj d => inr (map (fun kv => JStr (fst kv)) (map_to_list d))
  | JStr s => inr (map (fun c => JStr (String c EmptyString)) (chars s))
  | _ => inl TypeError
  end.

(** [str(n)] for an [int]. *)
Definition str_of_int (n : Z) : string := NilZero.string_of_int (Z.to_int n).

(** [float(n)] for an [int]: the nearest double, ties to even;
    [OverflowError] past the largest finite double. *)
Definition float_of_int (n : Z) : result json :=
  let a := Z.abs n in
  if (a =? 0)%Z then inr (JFloat 0 0) else
  let bits := (Z.log2 a + 1)%Z in
  if (bits <=? 53)%Z then inr (JFloat n 0) else
  let sh := (bits - 53)%Z in
  let q := Z.shiftr a sh in
  let r := Z.land a (Z.ones sh) in
  let half := Z.shiftl 1 (sh - 1) in
  let q' := if (half <? r)%Z || ((r =? half)%Z && Z.odd q) then (q + 1)%Z else q in
  let '(m, e) := if (q' =? 2 ^ 53)%Z then ((2 ^ 52)%Z, (sh + 1)%Z) else (q', sh) in
  if (971 <? e)%Z then inl OverflowError else inr (JFloat (Z.sgn n * m) e).

(** ** Identifier parser *)

Fixpoint span (p : ascii -> bool) (l : list ascii) : list ascii * list ascii :=
  match l with
  | [] => ([], [])
  | c :: l' =>
      if p c then let '(a, b) := span p l' in (c :: a, b) else ([], l)
  end.

Definition hyphen : ascii := "-"%char.
Definition newline : ascii := ascii_of_N 10.

(** [re.match] of [value] against the pattern of the source: an anchor,
    group 1 (one of [A-Za-z], then a greedy run of [A-Za-z0-9_]), a hyphen,
    group 2 (a greedy non-empty run of decimal digits), then the dollar
    anchor.  Neither class contains the character that has to follow it,
    so there is nothing to backtrack into.  The dollar anchor matches at
    the end of the string and also just before a final newline. *)
Definition re_match_identifier (value : string) : option (string * string) :=
  match chars value with
  | c :: rest =>
      if is_letter c then
        let '(run, after) := span is_word rest in
        match after with
        | h :: ds =>
            if Ascii.eqb h hyphen then
              let '(digits, tail) := span is_digit ds in
              match digits, tail with
              | _ :: _, [] => Some (str (c :: run), str digits)
              | _ :: _, [n] =>
                  if Ascii.eqb n newline then Some (str (c :: run), str digits)
                  else None
              | _, _ => None
              end
            else None
        | [] => None
        end
      else None
  | [] => None
  end.

(** The value of a run of decimal digits. *)
Definition digits_value (digits : string) : Z :=
  fold_left (fun acc c => (10 * acc + (Z.of_N (code c) - 48))%Z) (chars digits) 0%Z.

(** [sys.get_int_max_str_digits()], at its default. *)
Definition int_max_str_digits : nat := 4300.

Definition int_limit_message (n : nat) : string :=
  "Exceeds the limit (4300 digits) for integer string conversion: value has "
  ++ str_of_int (Z.of_nat n)
  ++ " digits; use sys.set_int_max_str_digits() to increase the limit".

(** [int(s)] on a run of decimal digits: the interpreter refuses a run
    longer than its limit, leading zeros included. *)
Definition py_int (digits : string) : result Z :=
  if Nat.ltb int_max_str_digits (String.length digits)
  then inl (ValueError (int_limit_message (String.length digits)))
  else inr (digits_value digits).

Definition parse_issue_identifier (identifier : string) : result (string * Z) :=
  let value := py_strip identifier in
  match re_match_identifier value with
  | None =>
      inl (ValueError ("Invalid issue identifier '" ++ identifier
                       ++ "'. Expected format TEAM-123."))
  | Some (g1, g2) =>
      let team_key := py_upper g1 in
      let? number := py_int g2 in
      inr (team_key, number)
  end.

(** ** Identifier parser, on every string *)

(** The identifier parser once more, this time on strings of arbitrary
    code points: [strip] takes away every Unicode whitespace, the digits
    of the pattern and of [int] are the decimal digits of every script.
    The definitions above are these on strings of code points below
    256. *)
Module Unicode.

(** A [str] as the list of its code points. *)
Definition ustring : Type := list N.

Definition of_string (s : string) : ustring := map code (chars s).

(** [str.isspace] on one code point. *)
Definition isspace (c : N) : bool :=
  in_range 0x09 0x0D c || in_range 0x1C 0x20 c || (c =? 0x85)%N || (c =? 0xA0)%N
  || (c =? 0x1680)%N || in_range 0x2000 0x200A c || in_range 0x2028 0x2029 c
  || (c =? 0x202F)%N || (c =? 0x205F)%N || (c =? 0x3000)%N.

Definition is_letter (c : N) : bool := in_range 65 90 c || in_range 97 122 c.

(** [[A-Za-z0-9_]] *)
Definition is_word (c : N) : bool := is_letter c || in_range 48 57 c || (c =? 95)%N.

(** [str.upper] on one code point of a match of [[A-Za-z][A-Za-z0-9_]*]. *)
Definition upper_char (c : N) : N := if in_range 97 122 c then (c - 32)%N else c.

Definition hyphen : N := 45%N.
Definition newline : N := 10%N.

Fixpoint drop_while (p : N -> bool) (l : ustring) : ustring :=
  match l with
  | [] => []
  | c :: l' => if p c then drop_while p l' else l
  end.

(** [s.strip()] *)
Definition strip (l : ustring) : ustring :=
  rev (drop_while isspace (rev (drop_while isspace l))).

Fixpoint span (p : N -> bool) (l : ustring) : ustring * ustring :=
  match l with
  | [] => ([], [])
  | c :: l' => if p c then let '(a, b) := span p l' in (c :: a, b) else ([], l)
  end.

(** What the parser raises, with its message. *)
Inductive uexn : Type := UValueError (msg : ustring).

Section Database.

(** The Unicode database of the interpreter, as far as decimal digits go:
    the code point of the digit zero of every script that has decimal
    digits; the nine code points after it are its digits one to nine. *)
Variable zeros : list N.

(** The decimal value of a code point, if it is a decimal digit. *)
Definition decimal (c : N) : option N :=
  match List.find (fun z => (z <=? c)%N && (c <? z + 10)%N) zeros with
  | Some z => Some (c - z)%N
  | None => None
  end.

(** What [\d] matches and [int] reads. *)
Definition is_digit (c : N) : bool :=
  match decimal c with Some _ => true | None => false end.

(** [re.match] of [value] against the pattern of the source; see
    [re_match_identifier] above. *)
Definition re_match_identifier (value : ustring) : option (ustring * ustring) :=
  match value with
  | c :: rest =>
      if is_letter c then
        let '(run, after) := span is_word rest in
        match after with
        | h :: ds =>
            if (h =? hyphen)%N then
              let '(digits, tail) := span is_digit ds in
              match digits, tail with
              | _ :: _, [] => Some (c :: run, digits)
              | _ :: _, [n] => if (n =? newline)%N then Some (c :: run, digits) else None
              | _, _ => None
              end
            else None
        | [] => None
        end
      else None
  | [] => None
  end.

Definition digits_value (digits : ustring) : Z :=
  fold_left (fun acc c => (10 * acc + Z.of_N (default 0%N (decimal c)))%Z) digits 0%Z.

(** [int(s)] on a run of decimal digits, with the limit of the
    interpreter on the number of digits. *)
Definition py_int (digits : ustring) : uexn + Z :=
  if Nat.ltb int_max_str_digits (List.length digits)
  then inl (UValueError (of_string (int_limit_message (List.length digits))))
  else inr (digits_value digits).

Definition parse_issue_identifier (identifier : ustring) : uexn + (ustring * Z) :=
  let value := strip identifier in
  match re_match_identifier value with
  | None =>
      inl (UValueError (of_string "Invalid issue identifier '" ++ identifier
                        ++ of_string "'. Expected format TEAM-123.")%list)
  | Some (g1, g2) =>
      let team_key := map upper_char g1 in
      match py_int g2 with
      | inl e => inl e
      | inr number => inr (team_key, number)
      end
  end.

End Database.

(** The zeros of the decimal digits of Unicode 14.0, the database of
    CPython 3.11. *)
Definition unicode_14_zeros : list N :=
  [
   0x30; 0x660; 0x6F0; 0x7C0; 0x966; 0x9E6; 0xA66; 0xAE6;
   0xB66; 0xBE6; 0xC66; 0xCE6; 0xD66; 0xDE6; 0xE50; 0xED0;
   0xF20; 0x1040; 0x1090; 0x17E0; 0x1810; 0x1946; 0x19D0; 0x1A80;
   0x1A90; 0x1B50; 0x1BB0; 0x1C40; 0x1C50; 0xA620; 0xA8D0; 0xA900;
   0xA9D0; 0xA9F0; 0xAA50; 0xABF0; 0xFF10; 0x104A0; 0x10D30; 0x11066;
   0x110F0; 0x11136; 0x111D0; 0x112F0; 0x11450; 0x114D0; 0x11650; 0x116C0;
   0x11730; 0x118E0; 0x11950; 0x11C50; 0x11D50; 0x11DA0; 0x16A60; 0x16AC0;
   0x16B50; 0x1D7CE; 0x1D7D8; 0x1D7E2; 0x1D7EC; 0x1D7F6; 0x1E140; 0x1E2F0;
   0x1E950; 0x1FBF0
  ]%N.

End Unicode.

(** ** Upstream errors *)

Definition raise_on_errors (response : json) : result unit :=
  let? errors := py_get response "errors" JNull in
  if negb (json_truthy errors) then inr tt else
  let? items := py_iter errors in
  let? parts := join_items (fun error => py_get error "message" (JStr "Unknown error")) items in
  let message := join "; " parts in
  inl (RuntimeError ("GraphQL error: " ++ message)).

(** ** Env loader: one line *)

Definition dq : ascii := ascii_of_N 34.
Definition sq : ascii := "'"%char.

(** The two one-character strings handed to [strip]. *)
Definition dquote : string := String dq EmptyString.
Definition squote : string := String sq EmptyString.

(** The line boundaries of [str.splitlines] below code point 256. *)
Definition is_linebreak (c : ascii) : bool :=
  let n := code c in in_range 10 13 n || in_range 28 30 n || (n =? 133)%N.

Fixpoint splitlines_from (cur : list ascii) (l : list ascii) : list string :=
  match l with
  | [] => match cur with [] => [] | _ => [str (rev cur)] end
  | c :: l' =>
      if is_linebreak c then
        str (rev cur) ::
        (if (code c =? 13)%N
         then match l' with
              | n :: l'' => if (code n =? 10)%N then splitlines_from [] l''
                            else splitlines_from [] l'
              | [] => splitlines_from [] l'
              end
         else splitlines_from [] l')
      else splitlines_from (c :: cur) l'
  end.

(** [text.splitlines()] *)
Definition splitlines (text : string) : list string := splitlines_from [] (chars text).

(** The value stored for a line: [value.strip().strip(dquote).strip(squote)]. *)
Definition env_value (value : string) : string :=
  py_strip_chars squote (py_strip_chars dquote (py_strip value)).

(** The body of the loop of [load_env_file]: what one line does to [env]. *)
Definition env_line (env : gmap string string) (line : string) : gmap string string :=
  let line := py_strip line in
  if negb (nonempty line) || startswith "#" line then env else
  let line :=
    if startswith "export " line
    then py_strip (slice_from (String.length "export ") line) else line in
  if negb (contains "=" line) then env else
  let '(key, value) := split_once "=" line in
  <[py_strip key := env_value value]> env.

Definition parse_env_text (text : string) : gmap string string :=
  fold_left env_line (splitlines text) ∅.

(** ** The world the script runs in *)

Record Request : Type := {
  req_url : string;
  req_headers : list (string * string);
  req_body : string
}.

(** What [urlopen] does with a request. *)
Inductive Reply : Type :=
| Reply200 (body : string)
| ReplyHTTPError (status : Z) (body : option string)   (* [exc.fp] may be absent *)
| ReplyFault.

Record World : Type := {
  files : gmap string string;      (* text files, as [read_text] returns them *)
  dirs : gset string;
  environ : gmap string string;    (* [os.environ] *)
  urlopen : Request -> Reply;
  write_error : string -> option exn;   (* what opening a path for writing raises:
                                           no such directory, no permission, ... *)
  mkdir_error : string -> option exn    (* what creating a directory raises *)
}.

(** Every interaction of the script with the world, in program order. *)
Inductive event : Type :=
| EvExists (path : string)
| EvReadText (path : string)
| EvGetenv (name : string)
| EvMkdir (path : string)
| EvWriteText (path text : string)
| EvPrint (text : string)
| EvUrlopen (req : Request).

Definition M (A : Type) : Type := World -> list event * result A.

Definition ret {A} (a : A) : M A := fun _ => ([], inr a).
Definition raise {A} (e : exn) : M A := fun _ => ([], inl e).
Definition lift {A} (r : result A) : M A := fun _ => ([], r).
Definition emit (ev : event) : M unit := fun _ => ([ev], inr tt).
Definition ask : M World := fun w => ([], inr w).

Definition bind {A B} (m : M A) (k : A -> M B) : M B :=
  fun w =>
    match m w with
    | (t, inl e) => (t, inl e)
    | (t, inr a) => let '(t', r) := k a w in ((t ++ t')%list, r)
    end.

Notation "'let!' x := m 'in' k" := (bind m (fun x => k))
  (at level 10, x name, k at level 200).
Notation "m ;;; k" := (bind m (fun _ => k))
  (at level 100, k at level 200, right associativity).

(** [Path(p).exists()] *)
Definition path_exists (p : string) : M bool :=
  let! w := ask in
  emit (EvExists p) ;;;
  ret (bool_decide (is_Some (files w !! p)) || bool_decide (p ∈ dirs w)).

(** [Path(p).read_text()] *)
Definition read_text (p : string) : M string :=
  let! w := ask in
  emit (EvReadText p) ;;;
  match files w !! p with
  | Some text => ret text
  | None => raise (OSError p)
  end.

(** [Path(p).write_text(text)]: a directory cannot be written, and the
    world may refuse the write for reasons of its own. *)
Definition write_text (p text : string) : M unit :=
  let! w := ask in
  if bool_decide (p ∈ dirs w) then raise (OSError p)
  else match write_error w p with
       | Some e => raise e
       | None => emit (EvWriteText p text)
       end.

(** [Path(p).mkdir(parents=True, exist_ok=True)] *)
Definition mkdir (p : string) : M unit :=
  let! w := ask in
  match mkdir_error w p with
  | Some e => raise e
  | None => emit (EvMkdir p)
  end.

(** [os.environ.get(name)] *)
Definition getenv (name : string) : M (option string) :=
  let! w := ask in
  emit (EvGetenv name) ;;;
  ret (environ w !! name).

(** Command line, after [argparse]: one field per destination. *)
Inductive Command : Type := Init | Issue | Project | Team | Custom.

Record Args : Type := {
  endpoint : string;
  token : option string;
  env : option string;
  config : string;
  auth_scheme : option string;
  public_file_urls_expire_in : option string;
  command : Command;
  workspace : option string;
  team_id : option string;
  team_key : option string;
  project_id : option string;
  project_name : option string;
  board_url : option string;
  auth_mode : option string;
  mcp_server : option string;
  id : option string;
  identifier : option string;
  details : bool;
  out : option string;
  first : Z;
  query : string;
  variables : option string
}.

Definition DEFAULT_ENDPOINT : string := "https://api.linear.app/graphql".
Definition DEFAULT_CONFIG : string := ".linear-task-planner.json".

(** ** Query templates *)

Definition QUERY_ISSUE_BY_ID : string := "
query IssueDetail($issueId: String!, $includeDetails: Boolean = false) {
  issue(id: $issueId) {
    id
    identifier
    title
    description
    url
    priority
    dueDate
    state {
      name
      type
    }
    labels {
      nodes {
        name
      }
    }
    assignee {
      name
      email
    }
    project {
      name
      url
    }
    updatedAt
    comments @include(if: $includeDetails) {
      nodes {
        id
        body
        user {
          name
        }
        createdAt
      }
    }
    attachments @include(if: $includeDetails) {
      nodes {
        id
        title
        url
        createdAt
      }
    }
  }
}
".

Definition QUERY_ISSUE_BY_IDENTIFIER : string := "
query IssueByIdentifier($teamKey: String!, $number: Float!, $includeDetails: Boolean = false) {
  issues(filter: { number: { eq: $number }, team: { key: { eq: $teamKey } } }) {
    nodes {
      id
      identifier
      title
      description
      url
      priority
      dueDate
      state {
        name
        type
      }
      labels {
        nodes {
          name
        }
      }
      assignee {
        name
        email
      }
      project {
        name
        url
      }
      updatedAt
      comments @include(if: $includeDetails) {
        nodes {
          id
          body
          user {
            name
          }
          createdAt
        }
      }
      attachments @include(if: $includeDetails) {
        nodes {
          id
          title
          url
          createdAt
        }
      }
    }
  }
}
".

Definition QUERY_PROJECT : string := "
query ProjectDetail($projectId: String!, $first: Int = 50) {
  project(id: $projectId) {
    id
    name
    description
    url
    state
    lead {
      name
    }
    targetDate
    updatedAt
    issues(first: $first, orderBy: updatedAt) {
      nodes {
        id
        identifier
        title
        url
        priority
        state {
          name
          type
        }
        assignee {
          name
        }
        updatedAt
      }
    }
  }
}
".

Definition QUERY_TEAM : string := "
query TeamIssues($teamId: String!, $first: Int = 50) {
  team(id: $teamId) {
    id
    name
    key
    issues(first: $first, orderBy: updatedAt) {
      nodes {
        id
        identifier
        title
        url
        priority
        state {
          name
          type
        }
        assignee {
          name
        }
        updatedAt
      }
    }
  }
}
".

(** ** The script *)

Module Script.
Section WithLibrary.

(** Library functions the script calls and this development leaves open. *)
Variable json_loads : string -> option json.        (* [None]: [JSONDecodeError] *)
Variable json_dumps : option Z -> json -> string.   (* first argument: [indent] *)
Variable Path : string -> string.                   (* [str(Path(p))] *)
Variable parent : string -> string.                 (* [str(Path(p).parent)] *)
Variable Request_error : string -> option exn.      (* what [Request(url)] raises *)

Definition load_env_file (path : option string) : M (gmap string string) :=
  match path with
  | None => ret ∅
  | Some p =>
      let! e := path_exists p in
      if negb e then ret ∅ else
      let! text := read_text p in
      ret (parse_env_text text)
  end.

(** [Path(v)] for a decoded value: only a [str] is accepted. *)
Definition Path_of (v : json) : result string :=
  match v with JStr s => inr (Path s) | _ => inl TypeError end.

Fixpoint first_existing (candidates : list string) : M (option string) :=
  match candidates with
  | [] => ret None
  | candidate :: rest =>
      let candidate_path := Path candidate in
      let! e := path_exists candidate_path in
      if e then ret (Some candidate_path) else first_existing rest
  end.

Definition resolve_env_path (arg_env : option string) (config : json) : M (option string) :=
  if truthy arg_env then ret (option_map Path arg_env) else
  let! config_env := lift (py_get config "envFile" JNull) in
  if json_truthy config_env then
    let! p := lift (Path_of config_env) in ret (Some p)
  else first_existing [".env.local"; ".env"].

Definition load_config (path : string) : M json :=
  let! e := path_exists path in
  if e then
    let! text := read_text path in
    match json_loads text with
    | Some v => ret v
    | None => ret (JObj ∅)
    end
  else ret (JObj ∅).

Definition write_config (path : string) (config : json) : M unit :=
  write_text path (json_dumps (Some 2%Z) config ++ String newline EmptyString).

(** [format_auth_header] as [post_graphql] calls it, on a hint that comes
    from the command line or from the decoded config: a falsy hint takes
    the no-hint path, a [str] is used, anything else has no [strip]. *)
Definition auth_header_of (token : string) (scheme : json) : result string :=
  match scheme with
  | JStr s => inr (format_auth_header token (Some s))
  | v => if json_truthy v then inl AttributeError
         else inr (format_auth_header token None)
  end.

Definition post_graphql (endpoint token : string) (auth_scheme : json)
    (query : string) (variables : json) (extra_headers : list (string * string)) : M json :=
  let payload :=
    json_dumps None (JObj (<["query" := JStr query]> (<["variables" := variables]> ∅))) in
  let! _ := match Request_error endpoint with Some e => raise e | None => ret tt end in
  let! authorization := lift (auth_header_of token auth_scheme) in
  let req := {| req_url := endpoint;
                req_headers := [("Content-Type", "application/json");
                                ("Authorization", authorization)] ++ extra_headers;
                req_body := payload |} in
  let! w := ask in
  emit (EvUrlopen req) ;;;
  match urlopen w req with
  | Reply200 body =>
      match json_loads body with
      | Some v => ret v
      | None => raise JSONDecodeError
      end
  | ReplyHTTPError status body =>
      let error_body := match body with Some b => b | None => EmptyString end in
      raise (RuntimeError ("Request failed: HTTP " ++ str_of_int status ++ " " ++ error_body))
  | ReplyFault => raise HTTPFault
  end.

Definition resolve_token (args : Args) (env_data : gmap string string) : M (option string) :=
  if truthy (token args) then ret (token args) else
  let! v := getenv "LINEAR_API_TOKEN" in
  if truthy v then getenv "LINEAR_API_TOKEN"
  else ret (env_data !! "LINEAR_API_TOKEN").

Definition write_output (data : json) (out_path : option string) : M unit :=
  let output := json_dumps (Some 2%Z) data in
  if negb (truthy out_path) || bool_decide (out_path = Some "-") then emit (EvPrint output)
  else
    let path := Path (default EmptyString out_path) in
    let! e := path_exists (parent path) in
    (if negb e then mkdir (parent path) else ret tt) ;;;
    write_text path (output ++ String newline EmptyString).

Definition loads_or_raise (text : string) : M json :=
  match json_loads text with Some v => ret v | None => raise JSONDecodeError end.

Definition parse_variables (value : option string) : M json :=
  if negb (truthy value) then ret (JObj ∅) else
  let value := default EmptyString value in
  if startswith "@" value then
    let! raw := read_text (Path (slice_from 1 value)) in
    loads_or_raise raw
  else
    let possible_path := Path value in
    let! e := path_exists possible_path in
    if e then let! text := read_text possible_path in loads_or_raise text
    else loads_or_raise value.

(** [a or b] where [a] is an option of the command line and [b] a decoded
    value. *)
Definition or_else (a : option string) (b : M json) : M json :=
  if truthy a then ret (of_opt a) else b.

Definition config_get (config : json) (k : string) : M json :=
  lift (py_get config k JNull).

(** [main], the [init] branch: the merge and the save. *)
Definition init_updates (args : Args) (env_file : json) : gmap string json :=
  list_to_map
    [("workspace", of_opt (workspace args));
     ("teamId", of_opt (team_id args));
     ("teamKey", of_opt (team_key args));
     ("projectId", of_opt (project_id args));
     ("projectName", of_opt (project_name args));
     ("boardUrl", of_opt (board_url args));
     ("envFile", env_file);
     ("authMode", of_opt (auth_mode args));
     ("authScheme", of_opt (auth_scheme args));
     ("mcpServer", of_opt (mcp_server args))].

Definition clean (updates : gmap string json) : gmap string json :=
  filter (fun kv => json_truthy (snd kv) = true) updates.

(** [config.update(clean_updates)] *)
Definition py_update (config : json) (clean_updates : gmap string json) : result json :=
  match config with
  | JObj d => inr (JObj (clean_updates ∪ d))
  | _ => inl AttributeError
  end.

Definition main_init (args : Args) (config_path : string) (config : json) : M unit :=
  let! env_file := or_else (env args) (config_get config "envFile") in
  let updates := init_updates args env_file in
  let clean_updates := clean updates in
  let! config := lift (py_update config clean_updates) in
  write_config config_path config ;;;
  emit (EvPrint ("Saved config to " ++ config_path)).

(** [main], the [issue] branch after [raise_on_errors]: the node list at
    [data.issues.nodes], with the defaults of the three lookups, must hold
    exactly one node. *)
Definition nodes_at (response : json) : result json :=
  let? data := py_get response "data" (JObj ∅) in
  let? issues := py_get data "issues" (JObj ∅) in
  py_get issues "nodes" (JList []).

Definition check_identifier_matches (identifier : string) (response : json) : result unit :=
  let? nodes := nodes_at response in
  let? n := py_len nodes in
  if Nat.eqb n 0 then
    inl (RuntimeError ("No issue found for identifier " ++ identifier))
  else if Nat.ltb 1 n then
    let? items := py_iter nodes in
    let? parts := join_items (fun node => py_get node "identifier" (JStr "?")) items in
    let identifiers := join ", " parts in
    inl (RuntimeError ("Multiple issues matched identifier. Use --id instead. "
                       ++ "Matches: " ++ identifiers))
  else inr tt.

Definition dict (l : list (string * json)) : json := JObj (list_to_map l).

(** [main], the [issue] branch once the response is there. *)
Definition issue_finish (args : Args) (response : json) : M unit :=
  lift (raise_on_errors response) ;;;
  (if truthy (identifier args)
   then lift (check_identifier_matches (default EmptyString (identifier args)) response)
   else ret tt) ;;;
  write_output response (out args).

Definition main_issue (args : Args) (config : json) (token : string)
    (extra_headers : list (string * string)) : M unit :=
  (if negb (truthy (id args)) && negb (truthy (identifier args))
   then raise (SystemExit 2 "issue requires --id or --identifier") else ret tt) ;;;
  let! qv :=
    if truthy (id args) then
      ret (QUERY_ISSUE_BY_ID,
           dict [("issueId", of_opt (id args)); ("includeDetails", JBool (details args))])
    else
      let! parsed := lift (parse_issue_identifier (default EmptyString (identifier args))) in
      let '(team_key, number) := parsed in
      let! number := lift (float_of_int number) in
      ret (QUERY_ISSUE_BY_IDENTIFIER,
           dict [("teamKey", JStr team_key); ("number", number);
                 ("includeDetails", JBool (details args))]) in
  let '(query, variables) := qv in
  let! auth_scheme := or_else (auth_scheme args) (config_get config "authScheme") in
  let! response := post_graphql (endpoint args) token auth_scheme query variables extra_headers in
  issue_finish args response.

(** [main], the [project] and [team] branches, which differ in the config
    key, the variable name and the template. *)
Definition main_listing (what key var query : string) (args : Args) (config : json)
    (token : string) (extra_headers : list (string * string)) : M unit :=
  let! the_id := or_else (id args) (config_get config key) in
  (if negb (json_truthy the_id)
   then raise (SystemExit 2 (what ++ " requires --id or config " ++ key)) else ret tt) ;;;
  let variables := dict [(var, the_id); ("first", JInt (first args))] in
  let! auth_scheme := or_else (auth_scheme args) (config_get config "authScheme") in
  let! response := post_graphql (endpoint args) token auth_scheme query variables extra_headers in
  lift (raise_on_errors response) ;;;
  write_output response (out args).

Definition main_custom (args : Args) (config : json) (token : string)
    (extra_headers : list (string * string)) : M unit :=
  let query_path := Path (query args) in
  let! e := path_exists query_path in
  (if negb e then raise (RuntimeError ("Query file not found: " ++ query_path)) else ret tt) ;;;
  let! query := read_text query_path in
  let! variables := parse_variables (variables args) in
  let! auth_scheme := or_else (auth_scheme args) (config_get config "authScheme") in
  let! response := post_graphql (endpoint args) token auth_scheme query variables extra_headers in
  lift (raise_on_errors response) ;;;
  write_output response (out args).

(** [env_data] of [main]: the mapping the env loader gives for this run. *)
Definition main_env_data (args : Args) (config : json) : M (gmap string string) :=
  let! env_path := resolve_env_path (env args) config in
  match env_path with
  | Some p => load_env_file (Some p)
  | None => ret ∅
  end.

Definition mcp_message : string :=
  "Auth mode is set to mcp. Use MCP connectivity for this workspace.".

Definition no_token_message : string := "LINEAR_API_TOKEN not found in env or args".

Definition is_init (c : Command) : bool :=
  match c with Init => true | _ => false end.

(** [main], after [parser.parse_args()]. *)
Definition main (args : Args) : M unit :=
  let config_path := Path (config args) in
  let! config := load_config config_path in
  if is_init (command args) then main_init args config_path config else
  let! auth_mode := config_get config "authMode" in
  let auth_mode := if json_truthy auth_mode then auth_mode else JStr "token" in
  (match auth_mode with
   | JStr s => if String.eqb s "mcp" then raise (RuntimeError mcp_message) else ret tt
   | _ => ret tt
   end) ;;;
  let! env_data := main_env_data args config in
  let! token := resolve_token args env_data in
  (if negb (truthy token) then raise (RuntimeError no_token_message) else ret tt) ;;;
  let token := default EmptyString token in
  let extra_headers :=
    if truthy (public_file_urls_expire_in args)
    then [("public-file-urls-expire-in", default EmptyString (public_file_urls_expire_in args))]
    else [] in
  match command args with
  | Init => ret tt
  | Issue => main_issue args config token extra_headers
  | Project => main_listing "project" "projectId" "projectId" QUERY_PROJECT
                            args config token extra_headers
  | Team => main_listing "team" "teamId" "teamId" QUERY_TEAM
                         args config token extra_headers
  | Custom => main_custom args config token extra_headers
  end.

End WithLibrary.
End Script.

(** * Vocabulary of the properties *)

(** The scheme hint as [format_auth_header] looks at it. *)
Definition hint_of (s : string) : string := py_lower (py_strip s).

(** The shape TEAM-123: one letter, then letters, digits and underscores;
    a hyphen; one or more digits. *)
Definition team_shape (team : string) : bool :=
  match chars team with
  | c :: run => is_letter c && forallb is_word run
  | [] => false
  end.

Definition digits_shape (digits : string) : bool :=
  nonempty digits && forallb is_digit (chars digits).

Definition identifier_shape (value : string) : Prop :=
  exists team digits,
    value = team ++ "-" ++ digits /\ team_shape team = true /\ digits_shape digits = true.

Definition invalid_identifier (identifier : string) : exn :=
  ValueError ("Invalid issue identifier '" ++ identifier ++ "'. Expected format TEAM-123.").

(** The line [env_line] works on once it is trimmed and a leading
    "export " is cut off. *)
Definition effective_line (line : string) : string :=
  let line := py_strip line in
  if startswith "export " line
  then py_strip (slice_from (String.length "export ") line) else line.

(** The lines that define a variable: not blank, not a comment, and with
    an equals sign. *)
Definition is_entry (line : string) : bool :=
  nonempty (py_strip line) && negb (startswith "#" (py_strip line))
  && contains "=" (effective_line line).

(** [n] copies of the one-character string [q]. *)
Fixpoint quotes (q : string) (n : nat) : string :=
  match n with
  | O => EmptyString
  | S n' => q ++ quotes q n'
  end.

Definition is_quote (c : ascii) : bool := one_of dquote c || one_of squote c.

(** Neither the first nor the last character is a quote. *)
Definition plain_edges (body : string) : bool :=
  match chars body, rev (chars body) with
  | c :: _, d :: _ => negb (is_quote c) && negb (is_quote d)
  | _, _ => true
  end.

(** The quote handling in the words of the specification: exactly one
    matching pair of the quote [q] around [s] is removed, and nothing
    else. *)
Definition strip_one_pair (q : string) (s : string) : string :=
  match chars s with
  | c :: rest =>
      match rev rest with
      | d :: mid => if one_of q c && one_of q d then str (rev mid) else s
      | [] => s
      end
  | [] => s
  end.

Definition spec_env_value (value : string) : string :=
  strip_one_pair squote (strip_one_pair dquote (py_strip value)).

(** A list of characters whose first and last character [p] rejects. *)
Definition edge_free (p : ascii -> bool) (l : list ascii) : Prop :=
  (forall c, hd_error l = Some c -> p c = false) /\
  (forall c, hd_error (rev l) = Some c -> p c = false).

(** The text an entry of a decoded list contributes to a joined message:
    the string under [key], or [dflt] when the entry has no such key. *)
Definition entry_text (key dflt : string) (entry : json) (text : string) : Prop :=
  exists d, entry = JObj d /\
            (d !! key = Some (JStr text) \/ (d !! key = None /\ text = dflt)).

(** The events of reading the file at [p]. *)
Definition reads_only (p : string) (t : list event) : Prop :=
  Forall (fun ev => ev = EvExists p \/ ev = EvReadText p) t.

(** The name under which the token is looked up. *)
Definition TOKEN_VAR : string := "LINEAR_API_TOKEN".

(** The fields an [init] invocation can supply, under their config keys. *)
Definition init_fields (args : Args) : list (string * option string) :=
  [("workspace", workspace args);
   ("teamId", team_id args);
   ("teamKey", team_key args);
   ("projectId", project_id args);
   ("projectName", project_name args);
   ("boardUrl", board_url args);
   ("envFile", env args);
   ("authMode", auth_mode args);
   ("authScheme", auth_scheme args);
   ("mcpServer", mcp_server args)].

(** The ten candidate entries of [init], in the order of the source. *)
Definition init_candidates (args : Args) (env_file : json) : list (string * json) :=
  [("workspace", of_opt (workspace args));
   ("teamId", of_opt (team_id args));
   ("teamKey", of_opt (team_key args));
   ("projectId", of_opt (project_id args));
   ("projectName", of_opt (project_name args));
   ("boardUrl", of_opt (board_url args));
   ("envFile", env_file);
   ("authMode", of_opt (auth_mode args));
   ("authScheme", of_opt (auth_scheme args));
   ("mcpServer", of_opt (mcp_server args))].

(** ** Sample runs *)

(** A command line with everything but the listed options left out. *)
Definition sample_args (command : Command) (token identifier workspace team_key : option string)
  : Args :=
  {| endpoint := DEFAULT_ENDPOINT; token := token; env := None; config := DEFAULT_CONFIG;
     auth_scheme := None; public_file_urls_expire_in := None; command := command;
     workspace := workspace; team_id := None; team_key := team_key; project_id := None;
     project_name := None; board_url := None; auth_mode := None; mcp_server := None;
     id := None; identifier := identifier; details := false; out := None;
     first := 50; query := EmptyString; variables := None |}.

(** Stand-ins for the library: a decoder that knows two config files and
    one response body, an encoder that does not look at its argument,
    paths that are already normal. *)
Definition sample_loads (text : string) : option json :=
  if String.eqb text "mcp config" then Some (JObj {[ "authMode" := JStr "mcp" ]})
  else if String.eqb text "team config"
  then Some (JObj (<["teamKey" := JStr "ENG"]> {[ "workspace" := JStr "old" ]}))
  else if String.eqb text "one issue"
  then Some (JObj {[ "data" := JObj {[ "issues" := JObj {[ "nodes" :=
                     JList [JObj {[ "identifier" := JStr "ENG-42" ]}] ]} ]} ]})
  else None.

Definition sample_dumps (indent : option Z) (v : json) : string := "{...}".
Definition sample_Path (p : string) : string := p.
Definition sample_parent (p : string) : string := ".".
Definition sample_Request_error (url : string) : option exn := None.

Definition sample_world (config_text : option string) (environ : gmap string string) : World :=
  {| files := match config_text with
              | Some text => {[ DEFAULT_CONFIG := text ]}
              | None => ∅
              end;
     dirs := {[ "." ]};
     environ := environ;
     urlopen := fun _ => ReplyFault;
     write_error := fun _ => None;
     mkdir_error := fun _ => None |}.

(** The same world with a server that answers every request with [body]. *)
Definition sample_world_online (body : string) : World :=
  {| files := ∅; dirs := {[ "." ]}; environ := ∅; urlopen := fun _ => Reply200 body;
     write_error := fun _ => None; mkdir_error := fun _ => None |}.

Definition sample_main : Args -> M unit :=
  Script.main sample_loads sample_dumps sample_Path sample_parent sample_Request_error.

Definition sample_issue_finish : Args -> json -> M unit :=
  Script.issue_finish sample_dumps sample_Path sample_parent.

Definition sample_node (identifier : string) : json :=
  JObj {[ "identifier" := JStr identifier ]}.

Definition sample_response (nodes : list json) : json :=
  JObj {[ "data" := JObj {[ "issues" := JObj {[ "nodes" := JList nodes ]} ]} ]}.

(** ** Vocabulary of the further properties *)

(** A string of whitespace only. *)
Definition all_space (s : string) : bool := forallb isspace (chars s).

(** What the env loader keeps true of its mapping: keys are trimmed and
    hold no equals sign, values neither start nor end with a single
    quote. *)
Definition env_normal (env : gmap string string) : Prop :=
  forall k v, env !! k = Some v ->
    py_strip k = k /\ contains "=" k = false /\ py_strip_chars squote v = v.

(** [Path(p).exists()] in the world [w]. *)
Definition on_disk (w : World) (p : string) : bool :=
  bool_decide (is_Some (files w !! p)) || bool_decide (p ∈ dirs w).

(** What [write_text] raises for the path [p] in the world [w], if
    anything. *)
Definition write_failure (w : World) (p : string) : option exn :=
  if bool_decide (p ∈ dirs w) then Some (OSError p) else write_error w p.

(** The events of writing [text] to [path] when nothing fails: the probe
    of the parent directory, its creation if it was missing, the write. *)
Definition file_output (parent : string -> string) (w : World) (path text : string)
  : list event :=
  (EvExists (parent path)
   :: (if on_disk w (parent path) then [] else [EvMkdir (parent path)]))
  ++ [EvWriteText path text].

(** How many requests a run sent. *)
Fixpoint requests (t : list event) : nat :=
  match t with
  | [] => 0
  | EvUrlopen _ :: t' => S (requests t')
  | _ :: t' => requests t'
  end.

Definition is_request (ev : event) : bool :=
  match ev with EvUrlopen _ => true | _ => false end.

(** A computation that sends no request, and one that sends at most one. *)
Definition quiet {A} (m : M A) : Prop := forall w, requests (fst (m w)) = 0.
Definition once {A} (m : M A) : Prop := forall w, requests (fst (m w)) <= 1.

(** The envFile candidate of [init]: [args.env or config.get("envFile")]. *)
Definition init_env_file (args : Args) (d : gmap string json) : json :=
  if truthy (env args) then of_opt (env args) else default JNull (d !! "envFile").

(** The config that [init] saves when it loaded [d]. *)
Definition init_saved (args : Args) (d : gmap string json) : gmap string json :=
  Script.clean (Script.init_updates args (init_env_file args d)) ∪ d.

(** The scheme hint of a request: [args.auth_scheme or config.get("authScheme")]. *)
Definition scheme_of (args : Args) (d : gmap string json) : json :=
  if truthy (auth_scheme args) then of_opt (auth_scheme args)
  else default JNull (d !! "authScheme").

(** [json.loads] as the script uses it outside [load_config]: a text that
    does not decode raises. *)
Definition decoded (json_loads : string -> option json) (text : string) : result json :=
  match json_loads text with Some v => inr v | None => inl JSONDecodeError end.

(** ** Further sample runs *)

Definition extra_args (command : Command) (env id identifier : option string) : Args :=
  {| endpoint := DEFAULT_ENDPOINT; token := Some "lin_api_key"; env := env;
     config := DEFAULT_CONFIG; auth_scheme := None; public_file_urls_expire_in := None;
     command := command; workspace := Some "acme"; team_id := None; team_key := None;
     project_id := None; project_name := None; board_url := None; auth_mode := None;
     mcp_server := None; id := id; identifier := identifier; details := false;
     out := None; first := 50; query := "q.graphql"; variables := None |}.

(** A decoder that also knows a saved config and the answer to a lookup
    by id. *)
Definition extra_loads (text : string) : option json :=
  if String.eqb text "saved config"
  then Some (JObj (<["teamKey" := JStr "ENG"]> {[ "workspace" := JStr "acme" ]}))
  else if String.eqb text "issue by id"
  then Some (JObj {[ "data" := JObj {[ "issue" := JObj {[ "id" := JStr "abc" ]} ]} ]})
  else sample_loads text.

Definition extra_world (files : gmap string string) (reply : Reply) : World :=
  {| files := files; dirs := {[ "." ]}; environ := ∅; urlopen := fun _ => reply;
     write_error := fun _ => None; mkdir_error := fun _ => None |}.

(** A world without directories that lets none be created. *)
Definition read_only_world : World :=
  {| files := ∅; dirs := ∅; environ := ∅; urlopen := fun _ => ReplyFault;
     write_error := fun _ => None; mkdir_error := fun p => Some (OSError p) |}.

Definition extra_main : Args -> M unit :=
  Script.main extra_loads sample_dumps sample_Path sample_parent sample_Request_error.

Definition extra_main_issue
  : Args -> json -> string -> list (string * string) -> M unit :=
  Script.main_issue extra_loads sample_dumps sample_Path sample_parent sample_Request_error.

(** The request [post_graphql] builds, given the Authorization header. *)
Definition graphql_request (json_dumps : option Z -> json -> string)
    (endpoint authorization query : string) (variables : json)
    (extra_headers : list (string * string)) : Request :=
  {| req_url := endpoint;
     req_headers := ("Content-Type", "application/json")
                    :: ("Authorization", authorization) :: extra_headers;
     req_body := json_dumps None
                   (JObj (<["query" := JStr query]> (<["variables" := variables]> ∅))) |}.

(** What [post_graphql] makes of the reply to its request. *)
Definition reply_outcome (json_loads : string -> option json) (r : Reply) : result json :=
  match r with
  | Reply200 body => decoded json_loads body
  | ReplyHTTPError status body =>
      inl (RuntimeError ("Request failed: HTTP " ++ str_of_int status ++ " "
                         ++ default EmptyString body))
  | ReplyFault => inl HTTPFault
  end.

(** The extra headers of [main]. *)
Definition extra_headers_of (args : Args) : list (string * string) :=
  if truthy (public_file_urls_expire_in args)
  then [("public-file-urls-expire-in", default EmptyString (public_file_urls_expire_in args))]
  else [].

(** ** Vocabulary for the identifier parser on every string *)

(** The shape TEAM-123 on code points: an ASCII letter, then ASCII
    letters, digits and underscores; a hyphen; one or more decimal
    digits of any script. *)
Definition u_team_shape (team : Unicode.ustring) : bool :=
  match team with
  | c :: run => Unicode.is_letter c && forallb Unicode.is_word run
  | [] => false
  end.

Definition u_digits_shape (zeros : list N) (digits : Unicode.ustring) : bool :=
  match digits with
  | [] => false
  | _ :: _ => forallb (Unicode.is_digit zeros) digits
  end.

Definition u_identifier_shape (zeros : list N) (value : Unicode.ustring) : Prop :=
  exists team digits,
    value = (team ++ Unicode.hyphen :: digits)%list /\
    u_team_shape team = true /\ u_digits_shape zeros digits = true.

Definition u_invalid_identifier (identifier : Unicode.ustring) : Unicode.uexn :=
  Unicode.UValueError
    (Unicode.of_string "Invalid issue identifier '" ++ identifier
     ++ Unicode.of_string "'. Expected format TEAM-123.")%list.

Definition u_too_many_digits (n : nat) : Unicode.uexn :=
  Unicode.UValueError (Unicode.of_string (int_limit_message n)).

(** The digits of the claim read as the ten ASCII digits. *)
Definition ascii_digits (digits : Unicode.ustring) : bool :=
  forallb (in_range 48 57) digits.

(** A result of the parser on strings of code points below 256, read as
    a result of the parser on code points. *)
Definition on_code_points (r : result (string * Z)) : Unicode.uexn + (Unicode.ustring * Z) :=
  match r with
  | inr (key, number) => inr (Unicode.of_string key, number)
  | inl (ValueError msg) => inl (Unicode.UValueError (Unicode.of_string msg))
  | inl _ => inl (Unicode.UValueError [])
  end.

(** A database whose decimal digits below 256 are 0 to 9 and no others. *)
Definition latin1_digits (zeros : list N) : Prop :=
  In 48%N zeros /\ forall z, In z zeros -> z = 48%N \/ (256 <= z)%N.

(** * Properties *)

(** ** The examples of the specification *)

Example header_bearer : format_auth_header "abc123" (Some "bearer") = "Bearer abc123".
Proof. reflexivity. Qed.

Example header_bearer_kept :
  format_auth_header "Bearer abc123" (Some " BEARER ") = "Bearer abc123".
Proof. reflexivity. Qed.

Example header_raw : format_auth_header "abc123" (Some "raw") = "abc123".
Proof. reflexivity. Qed.

Example header_no_hint : format_auth_header "abc123" None = "abc123".
Proof. reflexivity. Qed.

Example parse_eng_42 : parse_issue_identifier " eng-42 " = inr ("ENG", 42%Z).
Proof. reflexivity. Qed.

Example parse_a1_7 : parse_issue_identifier "A1-7" = inr ("A1", 7%Z).
Proof. reflexivity. Qed.

Example parse_rejects :
  map parse_issue_identifier ["ENG"; "123-ENG"; "-7"] =
  map (fun s => inl (ValueError ("Invalid issue identifier '" ++ s
                                 ++ "'. Expected format TEAM-123.")))
      ["ENG"; "123-ENG"; "-7"].
Proof. reflexivity. Qed.

Example env_round_trip :
  parse_env_text
    ("# token for the planner" ++ String newline
       (String newline ("export LINEAR_API_TOKEN=" ++ dquote ++ "secret-value" ++ dquote
                        ++ String newline EmptyString)))
  = {[ "LINEAR_API_TOKEN" := "secret-value" ]}.
Proof. vm_compute. reflexivity. Qed.

Example issue_lookup_run :
  sample_main (sample_args Issue (Some "lin_api_key") (Some " eng-42") None None)
              (sample_world_online "one issue")
  = ([EvExists DEFAULT_CONFIG; EvExists ".env.local"; EvExists ".env";
      EvUrlopen {| req_url := DEFAULT_ENDPOINT;
                   req_headers := [("Content-Type", "application/json");
                                   ("Authorization", "lin_api_key")];
                   req_body := "{...}" |};
      EvPrint "{...}"],
     inr tt).
Proof. vm_compute. reflexivity. Qed.

Example issue_lookup_without_token :
  sample_main (sample_args Issue None (Some "ENG-42") None None) (sample_world None ∅)
  = ([EvExists DEFAULT_CONFIG; EvExists ".env.local"; EvExists ".env";
      EvGetenv "LINEAR_API_TOKEN"],
     inl (RuntimeError "LINEAR_API_TOKEN not found in env or args")).
Proof. vm_compute. reflexivity. Qed.

(** ** Strings *)

Lemma chars_str (l : list ascii) : chars (str l) = l.
Proof. apply list_ascii_of_string_of_list_ascii. Qed.

Lemma str_chars (s : string) : str (chars s) = s.
Proof. apply string_of_list_ascii_of_string. Qed.

Lemma chars_app (a b : string) : chars (a ++ b) = (chars a ++ chars b)%list.
Proof. induction a as [|c a IH]; simpl; [reflexivity | now rewrite <- IH]. Qed.

Lemma chars_inj (a b : string) : chars a = chars b -> a = b.
Proof. intros H. rewrite <- (str_chars a), <- (str_chars b). now rewrite H. Qed.

Lemma member_true_iff (x : string) (l : list string) : member x l = true <-> In x l.
Proof.
  unfold member. rewrite existsb_exists. split.
  - intros (y & Hy & E). apply String.eqb_eq in E. now subst.
  - intros H. exists x. split; [assumption | apply String.eqb_refl].
Qed.

Lemma member_false_iff (x : string) (l : list string) : member x l = false <-> ~ In x l.
Proof.
  rewrite <- member_true_iff. destruct (member x l); split; intros; congruence.
Qed.

(** ** Authorization header *)

(** C1. With a scheme hint that, trimmed and lowercased, is "bearer" or
    "oauth", the header is "Bearer " followed by the token, unless the
    lowercased token already starts with "bearer ", in which case it is
    the token itself; with a hint that normalizes to "raw" or "token"
    the header is the token, verbatim. *)
Theorem format_auth_header_hint (token s : string) :
  (hint_of s = "bearer" \/ hint_of s = "oauth" ->
   format_auth_header token (Some s) =
   if startswith "bearer " (py_lower token) then token else "Bearer " ++ token) /\
  (hint_of s = "raw" \/ hint_of s = "token" ->
   format_auth_header token (Some s) = token).
Proof.
  unfold hint_of, format_auth_header.
  destruct s as [|c s]; [split; intros [H|H]; discriminate H |].
  cbn [nonempty]. set (h := py_lower (py_strip (String c s))).
  split; intros [H|H]; rewrite H; reflexivity.
Qed.

Lemma format_auth_header_hint_witness :
  format_auth_header "abc123" (Some "OAuth ") = "Bearer abc123" /\
  format_auth_header "bearer abc123" (Some "Token") = "bearer abc123".
Proof.
  split.
  - apply (proj1 (format_auth_header_hint "abc123" "OAuth ")). right. reflexivity.
  - apply (proj2 (format_auth_header_hint "bearer abc123" "Token")). right. reflexivity.
Defined.

(** C5. Without a scheme hint (none given, or an empty one) the header is
    the token itself, whatever the token looks like: it is never
    prefixed. *)
Theorem format_auth_header_no_hint (token : string) :
  format_auth_header token None = token /\
  format_auth_header token (Some EmptyString) = token.
Proof.
  unfold format_auth_header. cbn [nonempty].
  destruct (startswith "bearer " (py_lower token)), (contains " " token); split; reflexivity.
Qed.

(** C10. A scheme hint that, trimmed and lowercased, is none of "bearer",
    "oauth", "raw" and "token" is ignored: the header is the token
    itself, and nothing fails. *)
Theorem format_auth_header_unknown_hint (token s : string) :
  ~ In (hint_of s) ["bearer"; "oauth"; "raw"; "token"] ->
  format_auth_header token (Some s) = token.
Proof.
  intros H. unfold format_auth_header. fold (hint_of s).
  assert (member (hint_of s) ["bearer"; "oauth"] = false) as ->.
  { apply member_false_iff. intros Hin. apply H. simpl in *. tauto. }
  assert (member (hint_of s) ["raw"; "token"] = false) as ->.
  { apply member_false_iff. intros Hin. apply H. simpl in *. tauto. }
  destruct (nonempty s), (startswith "bearer " (py_lower token)), (contains " " token);
    reflexivity.
Qed.

Lemma format_auth_header_unknown_hint_witness :
  format_auth_header "abc123" (Some "basic") = "abc123" /\
  format_auth_header "abc 123" (Some "BEARER_TOKEN") = "abc 123".
Proof.
  split; apply format_auth_header_unknown_hint; vm_compute;
    intros H; repeat (destruct H as [H|H]; [discriminate H|]); exact H.
Defined.

(** ** Identifier parser *)

Lemma span_split (p : ascii -> bool) (l a b : list ascii) :
  span p l = (a, b) -> l = (a ++ b)%list /\ forallb p a = true.
Proof.
  revert a b. induction l as [|c l IH]; intros a b H; simpl in H.
  - injection H as <- <-. split; reflexivity.
  - destruct (p c) eqn:Hc.
    + destruct (span p l) as [a' b'] eqn:Hs. injection H as <- <-.
      destruct (IH a' b' eq_refl) as [-> Ha]. split; [reflexivity|].
      simpl. now rewrite Hc.
    + injection H as <- <-. split; reflexivity.
Qed.

Lemma span_all (p : ascii -> bool) (a : list ascii) :
  forallb p a = true -> span p a = (a, []).
Proof.
  induction a as [|c a IH]; simpl; [reflexivity|].
  intros H. apply andb_prop in H as [Hc Ha]. now rewrite Hc, (IH Ha).
Qed.

Lemma span_stop (p : ascii -> bool) (a : list ascii) (c : ascii) (b : list ascii) :
  forallb p a = true -> p c = false -> span p (a ++ c :: b) = (a, c :: b).
Proof.
  intros Ha Hc. induction a as [|x a IH]; simpl.
  - now rewrite Hc.
  - simpl in Ha. apply andb_prop in Ha as [Hx Ha]. now rewrite Hx, (IH Ha).
Qed.

Lemma drop_while_head (p : ascii -> bool) (l : list ascii) (c : ascii) (r : list ascii) :
  drop_while p l = c :: r -> p c = false.
Proof.
  induction l as [|x l IH]; simpl; [discriminate|].
  destruct (p x) eqn:Hx; [exact IH|]. intros H. injection H as -> _. exact Hx.
Qed.

(** What [strip] returns does not end in a character it strips. *)
Lemma strip_by_last (p : ascii -> bool) (l a : list ascii) (c : ascii) :
  strip_by p l = (a ++ [c])%list -> p c = false.
Proof.
  unfold strip_by, drop_while_end. intros H.
  apply (f_equal (@rev ascii)) in H. rewrite rev_involutive, rev_app_distr in H.
  simpl in H. exact (drop_while_head _ _ _ _ H).
Qed.

Lemma drop_while_keeps_last (p : ascii -> bool) (k : list ascii) (x : ascii) :
  p x = false -> exists k', drop_while p (k ++ [x]) = (k' ++ [x])%list.
Proof.
  intros Hx. induction k as [|y k IH]; simpl.
  - rewrite Hx. now exists [].
  - destruct (p y); [exact IH|]. now exists (y :: k).
Qed.

(** What [strip] returns does not start with a character it strips. *)
Lemma strip_by_head (p : ascii -> bool) (l r : list ascii) (c : ascii) :
  strip_by p l = c :: r -> p c = false.
Proof.
  unfold strip_by, drop_while_end.
  destruct (drop_while p l) as [|x m] eqn:Hd; [discriminate|].
  pose proof (drop_while_head _ _ _ _ Hd) as Hx.
  simpl rev. destruct (drop_while_keeps_last p (rev m) x Hx) as [k' ->].
  rewrite rev_app_distr. simpl. intros H. injection H as <- _. exact Hx.
Qed.

Lemma re_match_identifier_complete (team digits : string) :
  team_shape team = true -> digits_shape digits = true ->
  re_match_identifier (team ++ "-" ++ digits) = Some (team, digits).
Proof.
  unfold team_shape, digits_shape, re_match_identifier. intros Ht Hd.
  rewrite !chars_app. change (chars "-") with [hyphen]. cbn [app].
  destruct (chars team) as [|c run] eqn:Et; [discriminate|].
  apply andb_prop in Ht as [Hc Hrun]. apply andb_prop in Hd as [Hne Hds].
  cbn [app]. rewrite Hc. rewrite (span_stop is_word run hyphen _ Hrun eq_refl).
  change (Ascii.eqb hyphen hyphen) with true. cbn iota.
  rewrite (span_all _ _ Hds).
  rewrite <- Et, !str_chars.
  destruct digits; [discriminate|]. reflexivity.
Qed.

Lemma re_match_identifier_sound (value g1 g2 : string) :
  re_match_identifier value = Some (g1, g2) ->
  team_shape g1 = true /\ digits_shape g2 = true /\
  (value = g1 ++ "-" ++ g2 \/ chars value = (chars (g1 ++ "-" ++ g2) ++ [newline])%list).
Proof.
  unfold re_match_identifier. intros H.
  destruct (chars value) as [|c rest] eqn:Ev; [discriminate|].
  destruct (is_letter c) eqn:Hc; [|discriminate].
  destruct (span is_word rest) as [run after] eqn:Hs.
  apply span_split in Hs as [-> Hrun].
  destruct after as [|h ds]; [discriminate|].
  destruct (Ascii.eqb h hyphen) eqn:Hh; [|discriminate].
  apply Ascii.eqb_eq in Hh as ->.
  destruct (span is_digit ds) as [digits tail] eqn:Hd.
  apply span_split in Hd as [-> Hds].
  destruct digits as [|d0 digits]; [discriminate|].
  assert (Some (str (c :: run), str (d0 :: digits)) = Some (g1, g2) /\
          (tail = [] \/ tail = [newline])) as [E Htail].
  { destruct tail as [|n [|? ?]]; [auto | | discriminate].
    destruct (Ascii.eqb n newline) eqn:Hn; [|discriminate].
    apply Ascii.eqb_eq in Hn as ->. auto. }
  assert (g1 = str (c :: run) /\ g2 = str (d0 :: digits)) as [-> ->]
    by (injection E as <- <-; split; reflexivity).
  clear E H. unfold team_shape, digits_shape. rewrite !chars_str, Hc, Hrun, Hds.
  repeat split.
  destruct Htail as [-> | ->].
  - left. apply chars_inj. rewrite Ev, !chars_app, !chars_str, app_nil_r. reflexivity.
  - right. rewrite !chars_app, !chars_str.
    change (chars "-") with [hyphen]. cbn [app]. now rewrite <- !app_assoc.
Qed.

(** ** Identifier parser on every string *)

Lemma uspan_split (p : N -> bool) (l a b : list N) :
  Unicode.span p l = (a, b) -> l = (a ++ b)%list /\ forallb p a = true.
Proof.
  revert a b. induction l as [|c l IH]; intros a b H; simpl in H.
  - injection H as <- <-. split; reflexivity.
  - destruct (p c) eqn:Hc.
    + destruct (Unicode.span p l) as [a' b'] eqn:Hs. injection H as <- <-.
      destruct (IH a' b' eq_refl) as [-> Ha]. split; [reflexivity|].
      simpl. now rewrite Hc.
    + injection H as <- <-. split; reflexivity.
Qed.

Lemma uspan_all (p : N -> bool) (a : list N) :
  forallb p a = true -> Unicode.span p a = (a, []).
Proof.
  induction a as [|c a IH]; simpl; [reflexivity|].
  intros H. apply andb_prop in H as [Hc Ha]. now rewrite Hc, (IH Ha).
Qed.

Lemma uspan_stop (p : N -> bool) (a : list N) (c : N) (b : list N) :
  forallb p a = true -> p c = false ->
  Unicode.span p (a ++ c :: b)%list = (a, c :: b).
Proof.
  intros Ha Hc. induction a as [|x a IH]; simpl.
  - now rewrite Hc.
  - simpl in Ha. apply andb_prop in Ha as [Hx Ha]. now rewrite Hx, (IH Ha).
Qed.

Lemma udrop_while_head (p : N -> bool) (l : list N) (c : N) (r : list N) :
  Unicode.drop_while p l = c :: r -> p c = false.
Proof.
  induction l as [|x l IH]; simpl; [discriminate|].
  destruct (p x) eqn:Hx; [exact IH|]. intros H. injection H as -> _. exact Hx.
Qed.

Lemma ustrip_last (l a : list N) (c : N) :
  Unicode.strip l = (a ++ [c])%list -> Unicode.isspace c = false.
Proof.
  unfold Unicode.strip. intros H.
  apply (f_equal (@rev N)) in H. rewrite rev_involutive, rev_app_distr in H.
  simpl in H. exact (udrop_while_head _ _ _ _ H).
Qed.

Section UnicodeParser.

Variable zeros : list N.

Local Abbreviation is_digit := (Unicode.is_digit zeros).
Local Abbreviation re_match := (Unicode.re_match_identifier zeros).
Local Abbreviation parse := (Unicode.parse_issue_identifier zeros).

Lemma u_re_match_complete (team digits : list N) :
  u_team_shape team = true -> u_digits_shape zeros digits = true ->
  re_match (team ++ Unicode.hyphen :: digits)%list = Some (team, digits).
Proof.
  unfold u_team_shape, u_digits_shape, Unicode.re_match_identifier. intros Ht Hd.
  destruct team as [|c run]; [discriminate|].
  apply andb_prop in Ht as [Hc Hrun]. cbn [app]. rewrite Hc.
  rewrite (uspan_stop Unicode.is_word run Unicode.hyphen _ Hrun eq_refl).
  change (Unicode.hyphen =? Unicode.hyphen)%N with true. cbn iota.
  destruct digits as [|d0 digits]; [discriminate|].
  now rewrite (uspan_all _ _ Hd).
Qed.

Lemma u_re_match_sound (value g1 g2 : list N) :
  re_match value = Some (g1, g2) ->
  u_team_shape g1 = true /\ u_digits_shape zeros g2 = true /\
  (value = (g1 ++ Unicode.hyphen :: g2)%list \/
   value = ((g1 ++ Unicode.hyphen :: g2) ++ [Unicode.newline])%list).
Proof.
  unfold Unicode.re_match_identifier. intros H.
  destruct value as [|c rest]; [discriminate|].
  destruct (Unicode.is_letter c) eqn:Hc; [|discriminate].
  destruct (Unicode.span Unicode.is_word rest) as [run after] eqn:Hs.
  apply uspan_split in Hs as [-> Hrun].
  destruct after as [|h ds]; [discriminate|].
  destruct (h =? Unicode.hyphen)%N eqn:Hh; [|discriminate].
  apply N.eqb_eq in Hh as ->.
  destruct (Unicode.span is_digit ds) as [digits tail] eqn:Hd.
  apply uspan_split in Hd as [-> Hds].
  destruct digits as [|d0 digits]; [discriminate|].
  assert (g1 = c :: run /\ g2 = d0 :: digits /\ (tail = [] \/ tail = [Unicode.newline]))
    as (-> & -> & Htail).
  { destruct tail as [|n [|? ?]]; [injection H as <- <-; auto | | discriminate].
    destruct (n =? Unicode.newline)%N eqn:Hn; [|discriminate].
    apply N.eqb_eq in Hn as ->. injection H as <- <-. auto. }
  unfold u_team_shape, u_digits_shape. rewrite Hc, Hrun, Hds. repeat split.
  destruct Htail as [-> | ->].
  - left. now rewrite app_nil_r.
  - right. cbn [app]. now rewrite <- !app_assoc.
Qed.

(** C3, amended.  [parse_issue_identifier] trims its input; when the
    trimmed string is an ASCII letter, then ASCII letters, digits and
    underscores, a hyphen, and one or more decimal digits of any script,
    it returns the team key uppercased and the integer value of the
    digits, provided there are at most 4300 of them, and raises the
    ValueError of [int] about the limit when there are more; when the
    trimmed string does not have that shape it raises a ValueError that
    quotes the input as given and names the format TEAM-123. *)
Theorem parse_issue_identifier_spec (identifier : list N) :
  (forall team digits,
      Unicode.strip identifier = (team ++ Unicode.hyphen :: digits)%list ->
      u_team_shape team = true -> u_digits_shape zeros digits = true ->
      (List.length digits <= int_max_str_digits ->
       parse identifier
       = inr (map Unicode.upper_char team, Unicode.digits_value zeros digits)) /\
      (int_max_str_digits < List.length digits ->
       parse identifier = inl (u_too_many_digits (List.length digits)))) /\
  (~ u_identifier_shape zeros (Unicode.strip identifier) ->
   parse identifier = inl (u_invalid_identifier identifier)).
Proof.
  unfold Unicode.parse_issue_identifier. split.
  - intros team digits E Ht Hd.
    rewrite E, (u_re_match_complete team digits Ht Hd). unfold Unicode.py_int.
    split; intros Hlen.
    + apply Nat.ltb_ge in Hlen. now rewrite Hlen.
    + apply Nat.ltb_lt in Hlen. now rewrite Hlen.
  - intros Hno.
    destruct (re_match (Unicode.strip identifier)) as [[g1 g2]|] eqn:Hm; [|reflexivity].
    exfalso. apply u_re_match_sound in Hm as (Ht & Hd & [E|E]).
    + apply Hno. exists g1, g2. auto.
    + apply ustrip_last in E. discriminate E.
Qed.

End UnicodeParser.

Lemma parse_issue_identifier_spec_witness :
  Unicode.parse_issue_identifier Unicode.unicode_14_zeros
    (Unicode.of_string " eng_x1-00" ++ [0x664; 0x662; 0x3000])%list%N
  = inr (Unicode.of_string "ENG_X1", 42%Z) /\
  Unicode.parse_issue_identifier Unicode.unicode_14_zeros (Unicode.of_string "ENG 42")
  = inl (u_invalid_identifier (Unicode.of_string "ENG 42")).
Proof.
  split.
  - refine (eq_trans
              (proj1 (proj1 (parse_issue_identifier_spec Unicode.unicode_14_zeros
                               (Unicode.of_string " eng_x1-00" ++ [0x664; 0x662; 0x3000])%list%N)
                        (Unicode.of_string "eng_x1")
                        (Unicode.of_string "00" ++ [0x664; 0x662])%list%N _ _ _) _) _);
      first [ solve [vm_compute; reflexivity]
            | apply Nat.leb_le; vm_compute; reflexivity ].
  - apply (proj2 (parse_issue_identifier_spec Unicode.unicode_14_zeros
                    (Unicode.of_string "ENG 42"))).
    intros (team & digits & E & Ht & Hd).
    pose proof (u_re_match_complete Unicode.unicode_14_zeros team digits Ht Hd) as Hm.
    rewrite <- E in Hm. vm_compute in Hm. discriminate Hm.
Defined.

(** C3, as the specification words it, fails: an identifier of the shape
    TEAM-123 with 4301 digits does not give a pair but the ValueError of
    [int] about its limit; and an identifier whose number is written in
    Arabic-Indic digits, which are not among the ten ASCII digits, is
    parsed all the same. *)
Lemma parse_issue_identifier_counterexample :
  Unicode.strip (Unicode.of_string "A-" ++ repeat 49%N 4301)%list
  = (Unicode.of_string "A" ++ Unicode.hyphen :: repeat 49%N 4301)%list /\
  u_team_shape (Unicode.of_string "A") = true /\
  u_digits_shape Unicode.unicode_14_zeros (repeat 49%N 4301) = true /\
  Unicode.parse_issue_identifier Unicode.unicode_14_zeros
    (Unicode.of_string "A-" ++ repeat 49%N 4301)%list
  = inl (u_too_many_digits 4301) /\
  ascii_digits [0x664; 0x662]%N = false /\
  Unicode.parse_issue_identifier Unicode.unicode_14_zeros
    (Unicode.of_string "ENG-" ++ [0x664; 0x662])%list%N
  = inr (Unicode.of_string "ENG", 42%Z).
Proof. vm_compute. repeat split; reflexivity. Qed.

(** ** The two parsers agree below 256 *)

Lemma code_bound (c : ascii) : (code c < 256)%N.
Proof. apply N_ascii_bounded. Qed.

Lemma code_eqb (a b : ascii) : (code a =? code b)%N = Ascii.eqb a b.
Proof.
  destruct (Ascii.eqb_spec a b) as [->|Hne].
  - apply N.eqb_refl.
  - apply N.eqb_neq. intros E. apply Hne.
    rewrite <- (ascii_N_embedding a), <- (ascii_N_embedding b).
    unfold code in E. now rewrite E.
Qed.

Lemma of_string_str (l : list ascii) : Unicode.of_string (str l) = map code l.
Proof. unfold Unicode.of_string. now rewrite chars_str. Qed.

Lemma of_string_app (a b : string) :
  Unicode.of_string (a ++ b) = (Unicode.of_string a ++ Unicode.of_string b)%list.
Proof. unfold Unicode.of_string. now rewrite chars_app, map_app. Qed.

Lemma of_string_length (s : string) : List.length (Unicode.of_string s) = String.length s.
Proof.
  unfold Unicode.of_string, chars. rewrite length_map.
  induction s as [|c s IH]; simpl; [reflexivity|]. now rewrite IH.
Qed.

Lemma u_isspace_code (c : ascii) : Unicode.isspace (code c) = isspace c.
Proof.
  pose proof (code_bound c) as Hc. unfold Unicode.isspace, isspace.
  cbv zeta. set (n := code c) in *.
  assert ((n =? 0x1680)%N = false) as -> by (apply N.eqb_neq; lia).
  assert ((n =? 0x202F)%N = false) as -> by (apply N.eqb_neq; lia).
  assert ((n =? 0x205F)%N = false) as -> by (apply N.eqb_neq; lia).
  assert ((n =? 0x3000)%N = false) as -> by (apply N.eqb_neq; lia).
  assert (in_range 0x2000 0x200A n = false) as ->
    by (unfold in_range; replace (0x2000 <=? n)%N with false; [reflexivity|];
        symmetry; apply N.leb_gt; lia).
  assert (in_range 0x2028 0x2029 n = false) as ->
    by (unfold in_range; replace (0x2028 <=? n)%N with false; [reflexivity|];
        symmetry; apply N.leb_gt; lia).
  rewrite !orb_false_r. reflexivity.
Qed.

Lemma u_upper_code (c : ascii) : Unicode.upper_char (code c) = code (upper_char c).
Proof.
  pose proof (code_bound c) as Hc. unfold Unicode.upper_char, upper_char.
  cbv zeta. destruct (in_range 97 122 (code c)); [|reflexivity].
  unfold code at 2. rewrite N_ascii_embedding; [reflexivity|]. unfold code in *. lia.
Qed.

Lemma u_decimal_code (zeros : list N) (c : ascii) :
  latin1_digits zeros ->
  Unicode.decimal zeros (code c)
  = if is_digit c then Some (code c - 48)%N else None.
Proof.
  intros [H48 Hall]. pose proof (code_bound c) as Hc.
  unfold Unicode.decimal, is_digit, in_range. set (n := code c) in *.
  set (f := fun z => ((z <=? n)%N && (n <? z + 10)%N)).
  assert (Hbig : forall z, (256 <= z)%N -> f z = false).
  { intros z Hz. unfold f. replace (z <=? n)%N with false; [reflexivity|].
    symmetry. apply N.leb_gt. lia. }
  assert (Hzero : f 48%N = ((48 <=? n)%N && (n <=? 57)%N)).
  { unfold f. f_equal. destruct (N.ltb_spec n (48 + 10)), (N.leb_spec n 57);
      try reflexivity; lia. }
  destruct ((48 <=? n)%N && (n <=? 57)%N) eqn:E.
  - assert (List.find f zeros = Some 48%N) as ->; [|reflexivity].
    induction zeros as [|a zeros IH]; [destruct H48|]. cbn [List.find].
    destruct (Hall a (or_introl eq_refl)) as [->|Ha].
    + now rewrite Hzero.
    + rewrite (Hbig a Ha). apply IH.
      * destruct H48 as [->|H48]; [lia|exact H48].
      * intros z Hz. apply Hall. now right.
  - assert (List.find f zeros = None) as ->; [|reflexivity].
    clear H48. induction zeros as [|a zeros IH]; [reflexivity|]. cbn [List.find].
    destruct (Hall a (or_introl eq_refl)) as [->|Ha].
    + rewrite Hzero. apply IH. intros z Hz. apply Hall. now right.
    + rewrite (Hbig a Ha). apply IH. intros z Hz. apply Hall. now right.
Qed.

Lemma u_is_digit_code (zeros : list N) (c : ascii) :
  latin1_digits zeros -> Unicode.is_digit zeros (code c) = is_digit c.
Proof.
  intros Hz. unfold Unicode.is_digit. rewrite (u_decimal_code zeros c Hz).
  now destruct (is_digit c).
Qed.

Lemma udrop_while_map (q : N -> bool) (p : ascii -> bool) (l : list ascii) :
  (forall c, q (code c) = p c) ->
  Unicode.drop_while q (map code l) = map code (drop_while p l).
Proof.
  intros Hq. induction l as [|c l IH]; [reflexivity|]. cbn [map Unicode.drop_while drop_while].
  rewrite Hq. now destruct (p c).
Qed.

Lemma uspan_map (q : N -> bool) (p : ascii -> bool) (l : list ascii) :
  (forall c, q (code c) = p c) ->
  Unicode.span q (map code l) = (map code (fst (span p l)), map code (snd (span p l))).
Proof.
  intros Hq. induction l as [|c l IH]; [reflexivity|]. cbn [map Unicode.span span].
  rewrite Hq. destruct (p c); [|reflexivity].
  rewrite IH. now destruct (span p l).
Qed.

Lemma ustrip_map (l : list ascii) :
  Unicode.strip (map code l) = map code (strip_by isspace l).
Proof.
  unfold Unicode.strip, strip_by, drop_while_end.
  rewrite (udrop_while_map _ isspace _ u_isspace_code), <- map_rev.
  rewrite (udrop_while_map _ isspace _ u_isspace_code), <- map_rev. reflexivity.
Qed.

Lemma u_re_match_map (zeros : list N) (l : list ascii) :
  latin1_digits zeros ->
  Unicode.re_match_identifier zeros (map code l)
  = match re_match_identifier (str l) with
    | Some (g1, g2) => Some (Unicode.of_string g1, Unicode.of_string g2)
    | None => None
    end.
Proof.
  intros Hz. unfold Unicode.re_match_identifier, re_match_identifier.
  rewrite chars_str. destruct l as [|c rest]; [reflexivity|]. cbn [map].
  change (Unicode.is_letter (code c)) with (is_letter c).
  destruct (is_letter c); [|reflexivity].
  rewrite (uspan_map Unicode.is_word is_word rest (fun _ => eq_refl)).
  destruct (span is_word rest) as [run after]. cbn [fst snd].
  destruct after as [|h ds]; [reflexivity|]. cbn [map].
  change Unicode.hyphen with (code hyphen). rewrite code_eqb.
  destruct (Ascii.eqb h hyphen); [|reflexivity].
  rewrite (uspan_map (Unicode.is_digit zeros) is_digit ds
             (fun c => u_is_digit_code zeros c Hz)).
  destruct (span is_digit ds) as [digits tail]. cbn [fst snd].
  destruct digits as [|d0 digits]; [now destruct tail as [|? [|? ?]]|].
  destruct tail as [|n [|? ?]]; cbn [map].
  - now rewrite !of_string_str.
  - change Unicode.newline with (code newline). rewrite code_eqb.
    destruct (Ascii.eqb n newline); [|reflexivity]. now rewrite !of_string_str.
  - reflexivity.
Qed.

Lemma u_digits_value_map (zeros : list N) (digits : string) :
  latin1_digits zeros -> forallb is_digit (chars digits) = true ->
  Unicode.digits_value zeros (Unicode.of_string digits) = digits_value digits.
Proof.
  intros Hz. unfold Unicode.digits_value, digits_value, Unicode.of_string.
  generalize 0%Z. induction (chars digits) as [|c l IH]; intros acc Hd; [reflexivity|].
  cbn [forallb] in Hd. apply andb_prop in Hd as [Hc Hl]. cbn [map fold_left].
  rewrite (u_decimal_code zeros c Hz), Hc. cbn [default from_option Datatypes.id].
  rewrite (IH _ Hl). f_equal.
  unfold is_digit, in_range in Hc. apply andb_prop in Hc as [Hlo _].
  apply N.leb_le in Hlo. lia.
Qed.

(** On a string of code points below 256 the parser on code points does
    what [parse_issue_identifier] does, provided the database has no
    other decimal digits below 256 than 0 to 9. *)
Lemma parse_issue_identifier_code_points (zeros : list N) (identifier : string) :
  latin1_digits zeros ->
  Unicode.parse_issue_identifier zeros (Unicode.of_string identifier)
  = on_code_points (parse_issue_identifier identifier).
Proof.
  intros Hz. unfold Unicode.parse_issue_identifier, parse_issue_identifier, py_strip.
  unfold Unicode.of_string at 1. rewrite ustrip_map, (u_re_match_map zeros _ Hz).
  cbv zeta.
  destruct (re_match_identifier (str (strip_by isspace (chars identifier))))
    as [[g1 g2]|] eqn:Hm.
  - apply re_match_identifier_sound in Hm as (_ & Hd & _).
    unfold digits_shape in Hd. apply andb_prop in Hd as [_ Hd].
    unfold Unicode.py_int, py_int. rewrite of_string_length.
    destruct (Nat.ltb int_max_str_digits (String.length g2)); [reflexivity|].
    cbn [rbind on_code_points]. rewrite (u_digits_value_map zeros g2 Hz Hd).
    do 2 f_equal. unfold py_upper, Unicode.of_string. rewrite chars_str, !map_map.
    apply map_ext. intros c. apply u_upper_code.
  - cbn [on_code_points]. now rewrite !of_string_app.
Qed.

Lemma unicode_14_latin1_digits : latin1_digits Unicode.unicode_14_zeros.
Proof.
  split; [now left|]. intros z Hz. unfold Unicode.unicode_14_zeros in Hz.
  repeat (destruct Hz as [<-|Hz]; [first [now left | right; lia]|]). destruct Hz.
Qed.

(** ** Env loader *)

Lemma split_at_spec (c : ascii) (l a b : list ascii) :
  existsb (Ascii.eqb c) l = true -> split_at c l = (a, b) ->
  l = (a ++ c :: b)%list /\ existsb (Ascii.eqb c) a = false.
Proof.
  revert a b. induction l as [|x l IH]; intros a b Hin H; [discriminate|].
  simpl in H. destruct (Ascii.eqb x c) eqn:Hx.
  - apply Ascii.eqb_eq in Hx as ->. injection H as <- <-. split; reflexivity.
  - destruct (split_at c l) as [a' b'] eqn:Hs. injection H as <- <-.
    simpl in Hin. rewrite Ascii.eqb_sym, Hx in Hin.
    destruct (IH a' b' Hin eq_refl) as [-> Ha]. split; [reflexivity|].
    simpl. now rewrite Ascii.eqb_sym, Hx.
Qed.

Lemma drop_while_all (p : ascii -> bool) (pre l : list ascii) :
  forallb p pre = true -> drop_while p (pre ++ l) = drop_while p l.
Proof.
  induction pre as [|x pre IH]; simpl; [reflexivity|].
  intros H. apply andb_prop in H as [Hx Hpre]. now rewrite Hx, (IH Hpre).
Qed.

Lemma drop_while_id (p : ascii -> bool) (l : list ascii) :
  (forall c, hd_error l = Some c -> p c = false) -> drop_while p l = l.
Proof. destruct l as [|x l]; simpl; [reflexivity|]. intros H. now rewrite (H x eq_refl). Qed.

Lemma forallb_rev (p : ascii -> bool) (l : list ascii) :
  forallb p l = true -> forallb p (rev l) = true.
Proof.
  rewrite !forallb_forall. intros H x Hx. apply H. now apply in_rev.
Qed.

(** [strip] removes everything strippable around a core whose two ends
    are not strippable. *)
Lemma strip_by_wrapped (p : ascii -> bool) (pre post m : list ascii) :
  forallb p pre = true -> forallb p post = true -> edge_free p m ->
  strip_by p (pre ++ m ++ post) = m.
Proof.
  intros Hpre Hpost [Hhd Hlast]. unfold strip_by, drop_while_end.
  rewrite (drop_while_all p pre _ Hpre).
  destruct m as [|c m].
  - cbn [app]. rewrite <- (app_nil_r post), (drop_while_all p post [] Hpost). reflexivity.
  - rewrite (drop_while_id p ((c :: m) ++ post)) by (intros x [= <-]; now apply Hhd).
    rewrite rev_app_distr, (drop_while_all p _ _ (forallb_rev p post Hpost)).
    rewrite (drop_while_id p _ Hlast). apply rev_involutive.
Qed.

Lemma hd_error_wrapped (x : ascii) (n k : nat) (l : list ascii) (c : ascii) :
  hd_error (repeat x n ++ l ++ repeat x k) = Some c -> c = x \/ hd_error l = Some c.
Proof.
  destruct n as [|n]; simpl; [|intros [= <-]; now left].
  destruct l as [|y l]; simpl; [|intros H; now right].
  destruct k as [|k]; simpl; [discriminate | intros [= <-]; now left].
Qed.

Lemma edge_free_wrapped (p : ascii -> bool) (x : ascii) (n k : nat) (l : list ascii) :
  p x = false -> edge_free p l -> edge_free p (repeat x n ++ l ++ repeat x k).
Proof.
  intros Hx [Hhd Hlast]. split; intros c Hc.
  - apply hd_error_wrapped in Hc as [-> | Hc]; auto.
  - rewrite !rev_app_distr, !rev_repeat, <- app_assoc in Hc.
    apply hd_error_wrapped in Hc as [-> | Hc]; auto.
Qed.

Lemma forallb_repeat (p : ascii -> bool) (x : ascii) (n : nat) :
  p x = true -> forallb p (repeat x n) = true.
Proof. intros Hx. induction n as [|n IH]; simpl; [reflexivity | now rewrite Hx]. Qed.

Lemma chars_quotes_dq (n : nat) : chars (quotes dquote n) = repeat dq n.
Proof. induction n as [|n IH]; simpl; [reflexivity | now rewrite <- IH]. Qed.

Lemma chars_quotes_sq (n : nat) : chars (quotes squote n) = repeat sq n.
Proof. induction n as [|n IH]; simpl; [reflexivity | now rewrite <- IH]. Qed.

Lemma plain_edges_free (body : string) :
  plain_edges body = true ->
  edge_free (one_of dquote) (chars body) /\ edge_free (one_of squote) (chars body).
Proof.
  unfold plain_edges, edge_free, is_quote.
  destruct (chars body) as [|c l] eqn:E.
  - intros _. repeat split; intros c; simpl; discriminate.
  - destruct (rev (c :: l)) as [|d r] eqn:Er.
    { apply (f_equal (@List.length ascii)) in Er. rewrite length_rev in Er. discriminate Er. }
    intros H. apply andb_prop in H as [Hc Hd].
    apply negb_true_iff, orb_false_elim in Hc as [Hc1 Hc2].
    apply negb_true_iff, orb_false_elim in Hd as [Hd1 Hd2].
    repeat split; intros x [= <-]; assumption.
Qed.

(** The stored value once every quote around the core is gone. *)
Lemma env_value_wrapped (value body : string) (a b c d : nat) :
  py_strip value =
    quotes dquote a ++ quotes squote b ++ body ++ quotes squote c ++ quotes dquote d ->
  plain_edges body = true ->
  env_value value = body.
Proof.
  intros E Hb. unfold env_value. rewrite E. unfold py_strip_chars.
  apply plain_edges_free in Hb as [Hd Hs].
  rewrite !chars_app, !chars_quotes_dq, !chars_quotes_sq.
  replace (repeat dq a ++ repeat sq b ++ chars body ++ repeat sq c ++ repeat dq d)%list
    with (repeat dq a ++ (repeat sq b ++ chars body ++ repeat sq c) ++ repeat dq d)%list
    by (now rewrite <- !app_assoc).
  rewrite strip_by_wrapped;
    [ | now apply forallb_repeat | now apply forallb_repeat
      | now apply edge_free_wrapped ].
  rewrite chars_str.
  rewrite strip_by_wrapped; [ apply str_chars | now apply forallb_repeat
                            | now apply forallb_repeat | exact Hs ].
Qed.

(** C4, as the specification words it, fails: around a value written with
    two double quotes on each side, and around one with a single
    unmatched double quote, the loader leaves no quote at all, where
    removing exactly one matching pair would leave a pair, respectively
    the unmatched quote. *)
Lemma env_value_one_pair_counterexample :
  parse_env_text ("KEY=" ++ quotes dquote 2 ++ "x" ++ quotes dquote 2) !! "KEY" = Some "x" /\
  env_value (quotes dquote 2 ++ "x" ++ quotes dquote 2)
    <> spec_env_value (quotes dquote 2 ++ "x" ++ quotes dquote 2) /\
  parse_env_text ("KEY=" ++ dquote ++ "x") !! "KEY" = Some "x" /\
  env_value (dquote ++ "x") <> spec_env_value (dquote ++ "x").
Proof. vm_compute. repeat split; try reflexivity; discriminate. Qed.

(** C4, amended.  For every line that defines a variable, the key is the
    text before the first equals sign and the value the text after it;
    both are trimmed, and the value then loses every double quote and
    after that every single quote at either end, matched or not, as
    many as there are: whatever run of quotes surrounds a core that
    neither starts nor ends with a quote, the stored value is the
    core. *)
Theorem env_line_value (env : gmap string string) (line : string) :
  is_entry line = true ->
  (exists key value,
      effective_line line = key ++ "=" ++ value /\
      contains "=" key = false /\
      env_line env line = <[py_strip key := env_value value]> env) /\
  (forall value body a b c d,
      py_strip value =
        quotes dquote a ++ quotes squote b ++ body ++ quotes squote c ++ quotes dquote d ->
      plain_edges body = true ->
      env_value value = body).
Proof.
  intros H. split; [| intros; eapply env_value_wrapped; eassumption].
  unfold is_entry in H.
  apply andb_prop in H as [H Heq]. apply andb_prop in H as [Hne Hc].
  apply negb_true_iff in Hc.
  unfold env_line. fold (effective_line line). rewrite Hne, Hc, Heq. cbn [negb orb].
  unfold split_once.
  destruct (split_at "=" (chars (effective_line line))) as [k v] eqn:Hs.
  destruct (split_at_spec _ _ _ _ Heq Hs) as [E Hk].
  exists (str k), (str v). repeat split.
  - apply chars_inj. now rewrite E, !chars_app, !chars_str.
  - unfold contains. now rewrite chars_str.
Qed.

Lemma env_line_value_witness :
  env_line ∅ ("export KEY = '" ++ dquote ++ "x y" ++ dquote)
  = {[ "KEY" := dquote ++ "x y" ]} /\
  env_value (" " ++ quotes dquote 2 ++ "'x y" ++ dquote ++ " ") = "x y".
Proof.
  pose proof (env_line_value ∅ ("export KEY = '" ++ dquote ++ "x y" ++ dquote) eq_refl)
    as [_ Hv].
  split.
  - vm_compute. reflexivity.
  - apply (Hv _ "x y" 2 1 0 1); reflexivity.
Defined.

(** ** Upstream errors and disambiguation *)

Lemma join_items_texts (key dflt : string) (xs : list json) (texts : list string) :
  Forall2 (entry_text key dflt) xs texts ->
  join_items (fun x => py_get x key (JStr dflt)) xs = inr texts.
Proof.
  intros H. unfold join_items.
  assert (eval_items (fun x => py_get x key (JStr dflt)) xs = inr (map JStr texts)) as ->.
  { induction H as [|x t xs ts (d & -> & Hx) _ IH]; [reflexivity|].
    cbn [eval_items py_get rbind map].
    destruct Hx as [-> | [-> ->]]; cbn [from_option Datatypes.id rbind]; now rewrite IH. }
  cbn [rbind]. clear H. induction texts as [|t ts IH]; [reflexivity|].
  cbn [map all_strings]. now rewrite IH.
Qed.

(** C9. [raise_on_errors] does nothing when the response has no error
    list, a null one or an empty one; on a non-empty error list it raises
    a [RuntimeError] whose message is, after the label "GraphQL error: ",
    the message fields of the entries joined with "; ", with
    "Unknown error" for an entry without a message field. *)
Theorem raise_on_errors_spec (d : gmap string json) :
  (d !! "errors" = None \/ d !! "errors" = Some JNull \/ d !! "errors" = Some (JList []) ->
   raise_on_errors (JObj d) = inr tt) /\
  (forall errors messages,
      d !! "errors" = Some (JList errors) -> errors <> [] ->
      Forall2 (entry_text "message" "Unknown error") errors messages ->
      raise_on_errors (JObj d) =
      inl (RuntimeError ("GraphQL error: " ++ join "; " messages))).
Proof.
  unfold raise_on_errors. cbn [py_get rbind]. split.
  - intros [-> | [-> | ->]]; reflexivity.
  - intros errors messages -> Hne Hm.
    destruct errors as [|e errors]; [congruence|].
    cbn [from_option Datatypes.id json_truthy negb py_iter rbind].
    now rewrite (join_items_texts _ _ _ _ Hm).
Qed.

Lemma raise_on_errors_spec_witness :
  raise_on_errors (JObj {[ "data" := JNull ]}) = inr tt /\
  raise_on_errors
    (JObj {[ "errors" := JList [JObj {[ "message" := JStr "bad token" ]};
                                JObj ∅;
                                JObj {[ "message" := JStr "rate limited" ]}] ]})
  = inl (RuntimeError "GraphQL error: bad token; Unknown error; rate limited").
Proof.
  split.
  - apply (proj1 (raise_on_errors_spec {[ "data" := JNull ]})). left. reflexivity.
  - apply (proj2 (raise_on_errors_spec
                    {[ "errors" := JList [JObj {[ "message" := JStr "bad token" ]};
                                          JObj ∅;
                                          JObj {[ "message" := JStr "rate limited" ]}] ]})
                 [JObj {[ "message" := JStr "bad token" ]}; JObj ∅;
                  JObj {[ "message" := JStr "rate limited" ]}]
                 ["bad token"; "Unknown error"; "rate limited"]).
    + reflexivity.
    + discriminate.
    + repeat constructor.
      * eexists. split; [reflexivity|]. left. reflexivity.
      * eexists. split; [reflexivity|]. right. split; reflexivity.
      * eexists. split; [reflexivity|]. left. reflexivity.
Defined.

(** ** The monad *)

Lemma bind_lift_inr {A B} (a : A) (k : A -> M B) (w : World) :
  bind (lift (inr a)) k w = k a w.
Proof. unfold bind, lift. now destruct (k a w). Qed.

Lemma bind_lift_inl {A B} (e : exn) (k : A -> M B) (w : World) :
  bind (lift (inl e)) k w = ([], inl e).
Proof. reflexivity. Qed.

Lemma bind_ret {A B} (a : A) (k : A -> M B) (w : World) :
  bind (ret a) k w = k a w.
Proof. unfold bind, ret. now destruct (k a w). Qed.

Lemma bind_run {A B} (m : M A) (k : A -> M B) (w : World) (t : list event) (a : A) :
  m w = (t, inr a) -> bind m k w = ((t ++ fst (k a w))%list, snd (k a w)).
Proof. intros H. unfold bind. rewrite H. now destruct (k a w). Qed.

Lemma bind_fail {A B} (m : M A) (k : A -> M B) (w : World) (t : list event) (e : exn) :
  m w = (t, inl e) -> bind m k w = (t, inl e).
Proof. intros H. unfold bind. now rewrite H. Qed.

Section ScriptProperties.

Variable json_loads : string -> option json.
Variable json_dumps : option Z -> json -> string.
Variable Path : string -> string.
Variable parent : string -> string.
Variable Request_error : string -> option exn.

Local Abbreviation write_output := (Script.write_output json_dumps Path parent).
Local Abbreviation issue_finish := (Script.issue_finish json_dumps Path parent).
Local Abbreviation load_config := (Script.load_config json_loads).
Local Abbreviation main_env_data := (Script.main_env_data Path).
Local Abbreviation resolve_token := Script.resolve_token.
Local Abbreviation is_init := Script.is_init.
Local Abbreviation mcp_message := Script.mcp_message.
Local Abbreviation no_token_message := Script.no_token_message.
Local Abbreviation main := (Script.main json_loads json_dumps Path parent Request_error).

Lemma write_text_run (p text : string) (w : World) :
  write_text p text w =
  match write_failure w p with
  | Some e => ([], inl e)
  | None => ([EvWriteText p text], inr tt)
  end.
Proof.
  unfold write_text, write_failure, bind, ask, raise, emit. cbn.
  destruct (bool_decide (p ∈ dirs w)); [reflexivity|].
  now destruct (write_error w p).
Qed.

Lemma path_exists_run (p : string) (w : World) :
  path_exists p w = ([EvExists p], inr (on_disk w p)).
Proof. reflexivity. Qed.

Lemma mkdir_run (p : string) (w : World) :
  mkdir_error w p = None -> mkdir p w = ([EvMkdir p], inr tt).
Proof. intros H. unfold mkdir, bind, ask, emit. cbn. now rewrite H. Qed.

Lemma write_output_stdout (data : json) (out_path : option string) (w : World) :
  truthy out_path = false \/ out_path = Some "-" ->
  write_output data out_path w = ([EvPrint (json_dumps (Some 2%Z) data)], inr tt).
Proof.
  unfold Script.write_output. intros [-> | ->]; [reflexivity|].
  rewrite bool_decide_eq_true_2 by reflexivity. now rewrite orb_true_r.
Qed.

Lemma write_output_file (data : json) (p : string) (w : World) :
  nonempty p = true -> p <> "-" ->
  write_failure w (Path p) = None ->
  (on_disk w (parent (Path p)) = false -> mkdir_error w (parent (Path p)) = None) ->
  write_output data (Some p) w =
  (file_output parent w (Path p)
     (json_dumps (Some 2%Z) data ++ String newline EmptyString), inr tt).
Proof.
  intros Hne Hp Hw Hm. unfold Script.write_output, truthy. rewrite Hne. cbn [negb orb].
  rewrite bool_decide_eq_false_2 by congruence. cbn [from_option Datatypes.id].
  unfold file_output.
  rewrite (bind_run _ _ _ _ _ (path_exists_run (parent (Path p)) w)).
  destruct (on_disk w (parent (Path p))) eqn:Hd; cbn [negb].
  - rewrite bind_ret, write_text_run, Hw. reflexivity.
  - rewrite (bind_run _ _ _ _ _ (mkdir_run _ w (Hm eq_refl))).
    rewrite write_text_run, Hw. reflexivity.
Qed.

(** C7. On an identifier lookup whose response passed [raise_on_errors],
    with [nodes] the list at data.issues.nodes: no node fails with
    "No issue found for identifier" and the identifier as given; with
    exactly one node the check passes and the run goes on to write out
    the response that holds that node, which succeeds on the standard
    output and, for an output file, whenever the world lets the file be
    written; more than one node fails with a message that tells to use
    --id and lists the identifier of every node, joined with ", ". *)
Theorem identifier_disambiguation
    (args : Args) (ident : string) (response : json) (nodes : list json) (w : World) :
  identifier args = Some ident -> nonempty ident = true ->
  raise_on_errors response = inr tt ->
  Script.nodes_at response = inr (JList nodes) ->
  (nodes = [] ->
   issue_finish args response w =
   ([], inl (RuntimeError ("No issue found for identifier " ++ ident)))) /\
  (forall node, nodes = [node] ->
   Script.check_identifier_matches ident response = inr tt /\
   issue_finish args response w = write_output response (out args) w /\
   (truthy (out args) = false \/ out args = Some "-" ->
    issue_finish args response w =
    ([EvPrint (json_dumps (Some 2%Z) response)], inr tt)) /\
   (forall p, out args = Some p -> nonempty p = true -> p <> "-" ->
    write_failure w (Path p) = None ->
    (on_disk w (parent (Path p)) = false -> mkdir_error w (parent (Path p)) = None) ->
    issue_finish args response w =
    (file_output parent w (Path p)
       (json_dumps (Some 2%Z) response ++ String newline EmptyString), inr tt))) /\
  (forall identifiers,
   1 < List.length nodes ->
   Forall2 (entry_text "identifier" "?") nodes identifiers ->
   issue_finish args response w =
   ([], inl (RuntimeError ("Multiple issues matched identifier. Use --id instead. "
                           ++ "Matches: " ++ join ", " identifiers)))).
Proof.
  intros Hid Hne Herr Hnodes.
  assert (Hrun : issue_finish args response w =
                 bind (lift (Script.check_identifier_matches ident response))
                      (fun _ => write_output response (out args)) w).
  { unfold Script.issue_finish. rewrite Herr, bind_lift_inr.
    unfold truthy. now rewrite Hid, Hne. }
  rewrite Hrun. clear Hrun.
  unfold Script.check_identifier_matches. rewrite Hnodes. cbn [rbind py_len].
  split; [|split].
  - intros ->. reflexivity.
  - intros node ->. cbn [List.length Nat.eqb Nat.ltb Nat.leb].
    rewrite bind_lift_inr. split; [reflexivity | split; [reflexivity | split]].
    + apply write_output_stdout.
    + intros p -> Hp Hdash Hw Hm. now apply write_output_file.
  - intros identifiers Hlen Hids.
    destruct nodes as [|n1 [|n2 nodes]]; cbn [List.length] in Hlen; [lia | lia |].
    cbn [List.length Nat.eqb Nat.ltb Nat.leb py_iter rbind].
    now rewrite (join_items_texts _ _ _ _ Hids).
Qed.

Lemma load_config_reads (p : string) (w : World) (t : list event) (r : result json) :
  load_config p w = (t, r) -> reads_only p t.
Proof.
  unfold Script.load_config, bind, path_exists, read_text, ask, emit, ret, raise. cbn.
  destruct (bool_decide (is_Some (files w !! p)) || bool_decide (p ∈ dirs w)).
  - destruct (files w !! p) as [text|]; [destruct (json_loads text)|];
      intros [= <- _]; unfold reads_only;
      repeat (apply List.Forall_cons; [auto|]); apply List.Forall_nil.
  - intros [= <- _]. unfold reads_only.
    repeat (apply List.Forall_cons; [auto|]); apply List.Forall_nil.
Qed.

(** C6. For every operation other than init, when the loaded config has
    authMode equal to "mcp", [main] fails with the error that points to
    MCP connectivity, whatever the command line, the environment and the
    files hold; up to the failure the script has only looked at the
    config file, so no credential has been looked up. *)
Theorem mcp_short_circuit
    (args : Args) (w : World) (t0 : list event) (d : gmap string json) :
  is_init (command args) = false ->
  load_config (Path (config args)) w = (t0, inr (JObj d)) ->
  d !! "authMode" = Some (JStr "mcp") ->
  main args w = (t0, inl (RuntimeError mcp_message)) /\
  reads_only (Path (config args)) t0.
Proof.
  intros Hinit Hload Hmode. split; [|exact (load_config_reads _ _ _ _ Hload)].
  unfold Script.main. rewrite (bind_run _ _ _ _ _ Hload), Hinit.
  unfold Script.config_get. cbn [py_get]. rewrite Hmode. cbn [from_option Datatypes.id].
  rewrite bind_lift_inr. cbn [json_truthy nonempty String.eqb Ascii.eqb Bool.eqb].
  cbn. now rewrite app_nil_r.
Qed.

Lemma resolve_token_result (args : Args) (env_data : gmap string string) (w : World) :
  snd (resolve_token args env_data w) =
  inr (if truthy (token args) then token args
       else if truthy (environ w !! TOKEN_VAR) then environ w !! TOKEN_VAR
       else env_data !! TOKEN_VAR).
Proof.
  unfold Script.resolve_token, TOKEN_VAR.
  destruct (truthy (token args)); [reflexivity|].
  unfold bind, getenv, ask, emit, ret. cbn.
  destruct (truthy (environ w !! "LINEAR_API_TOKEN")); reflexivity.
Qed.

(** The authMode check of [main], as a function of the config entry. *)
Lemma auth_mode_check (d : gmap string json) (k : unit -> M unit) (w : World) :
  let v := default JNull (d !! "authMode") in
  let check : M unit :=
    match (if json_truthy v then v else JStr "token") with
    | JStr s => if String.eqb s "mcp" then raise (RuntimeError mcp_message) else ret tt
    | _ => ret tt
    end in
  (d !! "authMode" = Some (JStr "mcp") /\
   bind check k w = ([], inl (RuntimeError mcp_message))) \/
  (d !! "authMode" <> Some (JStr "mcp") /\ bind check k w = k tt w).
Proof.
  cbv zeta. change (String.eqb "token" "mcp") with false.
  destruct (d !! "authMode") as [v|] eqn:E; cbn [from_option Datatypes.id].
  2: { right. split; [discriminate | apply bind_ret]. }
  destruct (json_truthy v) eqn:Hv.
  - destruct v as [| b | z | m e | s | l | o];
      try (right; split; [discriminate | apply bind_ret]).
    destruct (String.eqb s "mcp") eqn:Es.
    + apply String.eqb_eq in Es as ->. left. split; reflexivity.
    + right. split; [|apply bind_ret]. intros [= ->]. discriminate Es.
  - right. split; [|apply bind_ret]. intros [= ->]. discriminate Hv.
Qed.

(** C2. The token is the explicit argument when that is non-empty, else
    the environment variable LINEAR_API_TOKEN when that is non-empty,
    else the entry LINEAR_API_TOKEN of the env loader's mapping; and when
    none of the three is non-empty, every operation other than init
    fails with a configuration error: the missing-token error, or the
    MCP error when the config says authMode "mcp". *)
Theorem credential_precedence (args : Args) (w : World) :
  (forall env_data,
      (truthy (token args) = true ->
       snd (resolve_token args env_data w) = inr (token args)) /\
      (truthy (token args) = false -> truthy (environ w !! TOKEN_VAR) = true ->
       snd (resolve_token args env_data w) = inr (environ w !! TOKEN_VAR)) /\
      (truthy (token args) = false -> truthy (environ w !! TOKEN_VAR) = false ->
       snd (resolve_token args env_data w) = inr (env_data !! TOKEN_VAR))) /\
  (forall t0 d t1 env_data,
      is_init (command args) = false ->
      load_config (Path (config args)) w = (t0, inr (JObj d)) ->
      main_env_data args (JObj d) w = (t1, inr env_data) ->
      truthy (token args) = false ->
      truthy (environ w !! TOKEN_VAR) = false ->
      truthy (env_data !! TOKEN_VAR) = false ->
      exists msg,
        snd (main args w) = inl (RuntimeError msg) /\
        (msg = mcp_message \/ msg = no_token_message) /\
        (d !! "authMode" <> Some (JStr "mcp") -> msg = no_token_message)).
Proof.
  split.
  - intros env_data. repeat split; intros; rewrite resolve_token_result;
      repeat match goal with H : truthy _ = _ |- _ => rewrite H end; reflexivity.
  - intros t0 d t1 env_data Hinit Hload Henv Ht He Hf.
    unfold Script.main. rewrite (bind_run _ _ _ _ _ Hload), Hinit. cbn [snd].
    unfold Script.config_get. cbn [py_get]. rewrite bind_lift_inr.
    match goal with |- context [bind _ ?k w] =>
      destruct (auth_mode_check d k w) as [[Hm ->] | [Hm ->]] end.
    + exists mcp_message. repeat split; [now left | congruence].
    + exists no_token_message. repeat split; [|now right].
      rewrite (bind_run _ _ _ _ _ Henv). cbn [snd].
      pose proof (resolve_token_result args env_data w) as Hr.
      rewrite Ht, He in Hr.
      destruct (resolve_token args env_data w) as [t2 r] eqn:Hres. cbn [snd] in Hr.
      subst r. rewrite (bind_run _ _ _ _ _ Hres). cbn [snd].
      rewrite Hf. reflexivity.
Qed.

Lemma of_opt_truthy (o : option string) :
  json_truthy (of_opt o) = true -> exists s, o = Some s /\ s <> EmptyString.
Proof.
  destruct o as [[|c s]|]; cbn; try discriminate. intros _. now eexists.
Qed.

Lemma init_updates_lookup (args : Args) (env_file : json) (k : string) (v : json) :
  Script.init_updates args env_file !! k = Some v <->
  In (k, v) (init_candidates args env_file).
Proof.
  unfold Script.init_updates. fold (init_candidates args env_file).
  rewrite <- elem_of_list_to_map, list_elem_of_In; [reflexivity|].
  apply (bool_decide_unpack _). vm_compute. reflexivity.
Qed.

Lemma clean_lookup (updates : gmap string json) (k : string) (v : json) :
  Script.clean updates !! k = Some v <-> updates !! k = Some v /\ json_truthy v = true.
Proof. unfold Script.clean. apply map_lookup_filter_Some. Qed.

Lemma main_init_outcome (args : Args) (w : World) (t0 : list event) (d : gmap string json) :
  is_init (command args) = true ->
  load_config (Path (config args)) w = (t0, inr (JObj d)) ->
  main args w =
  match write_failure w (Path (config args)) with
  | Some e => (t0, inl e)
  | None =>
      ((t0 ++ [EvWriteText (Path (config args))
                 (json_dumps (Some 2%Z) (JObj (init_saved args d))
                  ++ String newline EmptyString);
               EvPrint ("Saved config to " ++ Path (config args))])%list,
       inr tt)
  end.
Proof.
  intros Hinit Hload.
  unfold Script.main. rewrite (bind_run _ _ _ _ _ Hload), Hinit.
  unfold Script.main_init, Script.or_else, Script.config_get. cbn [py_get].
  replace (if truthy (env args) then ret (of_opt (env args))
           else lift (inr (default JNull (d !! "envFile"))))
    with (@lift json (inr (init_env_file args d)))
    by (unfold init_env_file; now destruct (truthy (env args))).
  rewrite bind_lift_inr. cbn [Script.py_update]. rewrite bind_lift_inr.
  unfold Script.write_config. fold (init_saved args d).
  pose proof (write_text_run (Path (config args))
                (json_dumps (Some 2%Z) (JObj (init_saved args d))
                 ++ String newline EmptyString) w) as Hw.
  destruct (write_failure w (Path (config args))) as [e|].
  - rewrite (bind_fail _ _ _ _ _ Hw). cbn. now rewrite app_nil_r.
  - rewrite (bind_run _ _ _ _ _ Hw). reflexivity.
Qed.

(** C8. [init] on a loaded config saves the config merged with the
    supplied fields: the candidate entries with a falsy value are dropped,
    a field supplied with a non-empty value is stored under its key, and
    every key for which no non-empty value was supplied has, in the saved
    config, exactly what the loaded config had for it.  The merged
    config is written and the run confirms it when the world lets the
    config file be written; when the write fails, the run fails with
    that error and confirms nothing. *)
Theorem init_merge (args : Args) (w : World) (t0 : list event) (d : gmap string json) :
  is_init (command args) = true ->
  load_config (Path (config args)) w = (t0, inr (JObj d)) ->
  exists d' env_file,
    (write_failure w (Path (config args)) = None ->
     main args w =
     ((t0 ++ [EvWriteText (Path (config args))
                          (json_dumps (Some 2%Z) (JObj d') ++ String newline EmptyString);
              EvPrint ("Saved config to " ++ Path (config args))])%list,
      inr tt)) /\
    (forall e, write_failure w (Path (config args)) = Some e ->
               main args w = (t0, inl e)) /\
    d' = Script.clean (Script.init_updates args env_file) ∪ d /\
    (forall k v, Script.clean (Script.init_updates args env_file) !! k = Some v ->
                 json_truthy v = true) /\
    (forall k s, In (k, Some s) (init_fields args) -> s <> EmptyString ->
                 d' !! k = Some (JStr s)) /\
    (forall k, (forall s, In (k, Some s) (init_fields args) -> s = EmptyString) ->
               d' !! k = d !! k).
Proof.
  intros Hinit Hload.
  set (env_file := if truthy (env args) then of_opt (env args)
                   else default JNull (d !! "envFile")).
  exists (Script.clean (Script.init_updates args env_file) ∪ d), env_file.
  assert (Henv : json_truthy env_file = true ->
                 (exists s, env args = Some s /\ s <> EmptyString) \/
                 (truthy (env args) = false /\ d !! "envFile" = Some env_file)).
  { unfold env_file. destruct (truthy (env args)) eqn:He.
    - intros H. left. now apply of_opt_truthy.
    - destruct (d !! "envFile"); cbn; [auto | discriminate]. }
  pose proof (main_init_outcome args w t0 d Hinit Hload) as Hmain.
  split; [|split; [|split; [reflexivity|split; [|split]]]].
  - intros Hw. now rewrite Hmain, Hw.
  - intros e Hw. now rewrite Hmain, Hw.
  - intros k v Hk. now apply clean_lookup in Hk.
  - intros k s Hin Hs.
    apply lookup_union_Some_l, clean_lookup.
    assert (json_truthy (JStr s) = true) as Ht by (now destruct s).
    split; [|exact Ht]. apply init_updates_lookup.
    assert (env_file = JStr s \/ env args <> Some s) as Hef.
    { destruct (decide (env args = Some s)) as [E|E]; [left | now right].
      unfold env_file, truthy. rewrite E. cbn in Ht. now rewrite Ht. }
    cbn in Hin |- *.
    repeat (destruct Hin as [[= <- E] | Hin];
            [first [ rewrite E; cbn; tauto
                   | destruct Hef as [-> | Hef]; [tauto | congruence] ] |]).
    contradiction.
  - intros k Hk.
    destruct (Script.clean (Script.init_updates args env_file) !! k) as [v|] eqn:Hc.
    + rewrite (lookup_union_Some_l _ _ _ _ Hc).
      apply clean_lookup in Hc as [Hin Ht]. apply init_updates_lookup in Hin.
      cbn in Hin.
      repeat (destruct Hin as [[= <- <-] | Hin];
              [first [ apply of_opt_truthy in Ht as (s & E & Hs);
                       exfalso; apply Hs, (Hk s); rewrite <- E; cbn; tauto
                     | destruct (Henv Ht) as [(s & E & Hs) | [_ E]];
                       [exfalso; apply Hs, (Hk s); rewrite <- E; cbn; tauto
                       | now rewrite E] ] |]).
      contradiction.
    + now rewrite lookup_union_r.
Qed.

End ScriptProperties.

(** ** The properties on sample runs *)

Lemma mcp_short_circuit_witness :
  sample_main (sample_args Team (Some "lin_api_key") None None None)
              (sample_world (Some "mcp config") {[ TOKEN_VAR := "lin_api_env" ]})
  = ([EvExists DEFAULT_CONFIG; EvReadText DEFAULT_CONFIG],
     inl (RuntimeError Script.mcp_message)).
Proof.
  apply (mcp_short_circuit sample_loads sample_dumps sample_Path sample_parent
           sample_Request_error
           (sample_args Team (Some "lin_api_key") None None None)
           (sample_world (Some "mcp config") {[ TOKEN_VAR := "lin_api_env" ]})
           [EvExists DEFAULT_CONFIG; EvReadText DEFAULT_CONFIG]
           {[ "authMode" := JStr "mcp" ]});
    vm_compute; reflexivity.
Defined.

Lemma credential_precedence_witness :
  snd (Script.resolve_token (sample_args Issue (Some "from-arg") None None None)
         {[ TOKEN_VAR := "from-file" ]}
         (sample_world None {[ TOKEN_VAR := "from-env" ]})) = inr (Some "from-arg") /\
  snd (Script.resolve_token (sample_args Issue None None None None)
         {[ TOKEN_VAR := "from-file" ]}
         (sample_world None {[ TOKEN_VAR := "from-env" ]})) = inr (Some "from-env") /\
  snd (Script.resolve_token (sample_args Issue (Some EmptyString) None None None)
         {[ TOKEN_VAR := "from-file" ]}
         (sample_world None ∅)) = inr (Some "from-file") /\
  snd (sample_main (sample_args Issue None (Some "ENG-42") None None) (sample_world None ∅))
  = inl (RuntimeError Script.no_token_message).
Proof.
  split; [|split; [|split]].
  - apply (proj1 (proj1 (credential_precedence sample_loads sample_dumps sample_Path
                    sample_parent sample_Request_error
                    (sample_args Issue (Some "from-arg") None None None)
                    (sample_world None {[ TOKEN_VAR := "from-env" ]}))
                 {[ TOKEN_VAR := "from-file" ]})).
    reflexivity.
  - refine (eq_trans
              (proj1 (proj2 (proj1 (credential_precedence sample_loads sample_dumps
                    sample_Path sample_parent sample_Request_error
                    (sample_args Issue None None None None)
                    (sample_world None {[ TOKEN_VAR := "from-env" ]}))
                 {[ TOKEN_VAR := "from-file" ]})) _ _) _);
      vm_compute; reflexivity.
  - refine (eq_trans
              (proj2 (proj2 (proj1 (credential_precedence sample_loads sample_dumps
                    sample_Path sample_parent sample_Request_error
                    (sample_args Issue (Some EmptyString) None None None)
                    (sample_world None ∅))
                 {[ TOKEN_VAR := "from-file" ]})) _ _) _);
      vm_compute; reflexivity.
  - destruct (proj2 (credential_precedence sample_loads sample_dumps sample_Path
                       sample_parent sample_Request_error
                       (sample_args Issue None (Some "ENG-42") None None)
                       (sample_world None ∅))
                    [EvExists DEFAULT_CONFIG] ∅
                    [EvExists ".env.local"; EvExists ".env"] ∅
                    ltac:(vm_compute; reflexivity) ltac:(vm_compute; reflexivity)
                    ltac:(vm_compute; reflexivity) ltac:(vm_compute; reflexivity)
                    ltac:(vm_compute; reflexivity) ltac:(vm_compute; reflexivity))
      as (msg & Hmain & _ & Hmsg).
    unfold sample_main. rewrite Hmain, Hmsg; [reflexivity|].
    vm_compute. discriminate.
Defined.

Lemma identifier_disambiguation_witness :
  sample_issue_finish (sample_args Issue None (Some "ENG-42") None None)
                      (sample_response []) (sample_world None ∅)
  = ([], inl (RuntimeError "No issue found for identifier ENG-42")) /\
  sample_issue_finish (sample_args Issue None (Some "ENG-42") None None)
                      (sample_response [sample_node "ENG-42"]) (sample_world None ∅)
  = ([EvPrint "{...}"], inr tt) /\
  sample_issue_finish (sample_args Issue None (Some "ENG-42") None None)
                      (sample_response [sample_node "ENG-42"; JObj ∅; sample_node "eng-42"])
                      (sample_world None ∅)
  = ([], inl (RuntimeError
                "Multiple issues matched identifier. Use --id instead. Matches: ENG-42, ?, eng-42")).
Proof.
  split; [|split].
  - apply (proj1 (identifier_disambiguation sample_dumps sample_Path sample_parent
                    (sample_args Issue None (Some "ENG-42") None None) "ENG-42"
                    (sample_response []) [] (sample_world None ∅)
                    eq_refl eq_refl eq_refl eq_refl)).
    reflexivity.
  - destruct (proj1 (proj2 (identifier_disambiguation sample_dumps sample_Path sample_parent
                    (sample_args Issue None (Some "ENG-42") None None) "ENG-42"
                    (sample_response [sample_node "ENG-42"]) [sample_node "ENG-42"]
                    (sample_world None ∅)
                    eq_refl eq_refl eq_refl eq_refl)) (sample_node "ENG-42") eq_refl)
      as (_ & _ & Hout & _).
    apply Hout. left. reflexivity.
  - apply (proj2 (proj2 (identifier_disambiguation sample_dumps sample_Path sample_parent
                    (sample_args Issue None (Some "ENG-42") None None) "ENG-42"
                    (sample_response [sample_node "ENG-42"; JObj ∅; sample_node "eng-42"])
                    [sample_node "ENG-42"; JObj ∅; sample_node "eng-42"]
                    (sample_world None ∅)
                    eq_refl eq_refl eq_refl eq_refl))
                 ["ENG-42"; "?"; "eng-42"]).
    + cbn. lia.
    + repeat constructor.
      * eexists. split; [reflexivity|]. left. reflexivity.
      * eexists. split; [reflexivity|]. right. split; reflexivity.
      * eexists. split; [reflexivity|]. left. reflexivity.
Defined.

Lemma init_merge_witness :
  exists d' : gmap string json,
    sample_main (sample_args Init None None (Some "acme") (Some EmptyString))
                (sample_world (Some "team config") ∅)
    = ([EvExists DEFAULT_CONFIG; EvReadText DEFAULT_CONFIG;
        EvWriteText DEFAULT_CONFIG ("{...}" ++ String newline EmptyString);
        EvPrint "Saved config to .linear-task-planner.json"], inr tt) /\
    d' !! "workspace" = Some (JStr "acme") /\
    d' !! "teamKey" = Some (JStr "ENG") /\
    d' !! "mcpServer" = None.
Proof.
  destruct (init_merge sample_loads sample_dumps sample_Path sample_parent
              sample_Request_error
              (sample_args Init None None (Some "acme") (Some EmptyString))
              (sample_world (Some "team config") ∅)
              [EvExists DEFAULT_CONFIG; EvReadText DEFAULT_CONFIG]
              (<["teamKey" := JStr "ENG"]> {[ "workspace" := JStr "old" ]})
              eq_refl eq_refl)
    as (d' & env_file & Hmain & _ & _ & _ & Hset & Hkeep).
  exists d'. split; [|split; [|split]].
  - apply Hmain. reflexivity.
  - apply (Hset "workspace" "acme"); [cbn; tauto | discriminate].
  - rewrite (Hkeep "teamKey"); [reflexivity|].
    intros s Hin. cbn in Hin.
    repeat (destruct Hin as [Hin | Hin]; [congruence|]). contradiction.
  - rewrite (Hkeep "mcpServer"); [reflexivity|].
    intros s Hin. cbn in Hin.
    repeat (destruct Hin as [Hin | Hin]; [congruence|]). contradiction.
Defined.

(** * Further properties *)

(** ** Trimming *)

Lemma str_app (a b : list ascii) : str (a ++ b) = str a ++ str b.
Proof. apply chars_inj. now rewrite chars_app, !chars_str. Qed.

Lemma drop_while_split (p : ascii -> bool) (l : list ascii) :
  exists a, l = (a ++ drop_while p l)%list /\ forallb p a = true.
Proof.
  induction l as [|c l (a & E & Ha)]; simpl.
  - now exists [].
  - destruct (p c) eqn:Hc.
    + exists (c :: a). simpl. rewrite Hc, Ha. split; [congruence | reflexivity].
    + now exists [].
Qed.

Lemma drop_while_end_split (p : ascii -> bool) (l : list ascii) :
  exists b, l = (drop_while_end p l ++ b)%list /\ forallb p b = true.
Proof.
  unfold drop_while_end. destruct (drop_while_split p (rev l)) as (a & E & Ha).
  exists (rev a). split; [|now apply forallb_rev].
  rewrite <- rev_app_distr, <- E. symmetry. apply rev_involutive.
Qed.

Lemma strip_by_edge_free (p : ascii -> bool) (l : list ascii) :
  edge_free p (strip_by p l).
Proof.
  split; intros c Hc.
  - destruct (strip_by p l) as [|x r] eqn:E; [discriminate|].
    injection Hc as ->. exact (strip_by_head _ _ _ _ E).
  - destruct (rev (strip_by p l)) as [|x r] eqn:E; [discriminate|].
    injection Hc as ->. apply (strip_by_last p l (rev r)).
    rewrite <- (rev_involutive (strip_by p l)), E. reflexivity.
Qed.

(** What [strip] takes away, on both sides of what it returns. *)
Lemma strip_by_split (p : ascii -> bool) (l : list ascii) :
  exists a b, l = (a ++ strip_by p l ++ b)%list /\
              forallb p a = true /\ forallb p b = true.
Proof.
  unfold strip_by. destruct (drop_while_split p l) as (a & E & Ha).
  destruct (drop_while_end_split p (drop_while p l)) as (b & E' & Hb).
  exists a, b. repeat split; [|assumption|assumption].
  now rewrite <- E', <- E.
Qed.

Lemma strip_by_padded (p : ascii -> bool) (pre post l : list ascii) :
  forallb p pre = true -> forallb p post = true ->
  strip_by p (pre ++ l ++ post) = strip_by p l.
Proof.
  intros Hpre Hpost. destruct (strip_by_split p l) as (a & b & E & Ha & Hb).
  rewrite E at 1.
  replace (pre ++ (a ++ strip_by p l ++ b) ++ post)%list
    with ((pre ++ a) ++ strip_by p l ++ (b ++ post))%list
    by (now rewrite <- !app_assoc).
  apply strip_by_wrapped; [| |apply strip_by_edge_free];
    rewrite forallb_app; now apply andb_true_intro.
Qed.

Lemma strip_by_idem (p : ascii -> bool) (l : list ascii) :
  strip_by p (strip_by p l) = strip_by p l.
Proof.
  rewrite <- (app_nil_r (strip_by p l)) at 1.
  apply (strip_by_wrapped p [] [] _ eq_refl eq_refl), strip_by_edge_free.
Qed.

Lemma py_strip_idem (s : string) : py_strip (py_strip s) = py_strip s.
Proof. unfold py_strip. now rewrite chars_str, strip_by_idem. Qed.

Lemma py_strip_padded (pre post s : string) :
  all_space pre = true -> all_space post = true ->
  py_strip (pre ++ s ++ post) = py_strip s.
Proof.
  intros Hpre Hpost. unfold py_strip. rewrite !chars_app.
  now rewrite strip_by_padded.
Qed.

(** ** Identifier parser, further *)

Lemma upper_char_letter (c : ascii) : is_letter (upper_char c) = is_letter c.
Proof. destruct c as [[] [] [] [] [] [] [] []]; reflexivity. Qed.

Lemma upper_char_word (c : ascii) : is_word (upper_char c) = is_word c.
Proof. destruct c as [[] [] [] [] [] [] [] []]; reflexivity. Qed.

Lemma upper_char_idem (c : ascii) : upper_char (upper_char c) = upper_char c.
Proof. destruct c as [[] [] [] [] [] [] [] []]; reflexivity. Qed.

Lemma py_upper_idem (s : string) : py_upper (py_upper s) = py_upper s.
Proof.
  unfold py_upper. rewrite chars_str, map_map. f_equal.
  apply map_ext. intros c. apply upper_char_idem.
Qed.

Lemma py_upper_team_shape (team : string) :
  team_shape team = true -> team_shape (py_upper team) = true.
Proof.
  unfold team_shape, py_upper. rewrite chars_str.
  destruct (chars team) as [|c run]; [discriminate|]. cbn [map].
  intros H. apply andb_prop in H as [Hc Hrun].
  rewrite upper_char_letter, Hc. cbn [andb].
  clear Hc. induction run as [|x run IH]; [reflexivity|].
  cbn [map forallb] in *. apply andb_prop in Hrun as [Hx Hrun].
  now rewrite upper_char_word, Hx, (IH Hrun).
Qed.

Lemma digit_value (c : ascii) : is_digit c = true -> (0 <= Z.of_N (code c) - 48 <= 9)%Z.
Proof. destruct c as [[] [] [] [] [] [] [] []]; cbn; intros H; try discriminate H; lia. Qed.

Lemma digits_value_nonneg (digits : string) :
  forallb is_digit (chars digits) = true -> (0 <= digits_value digits)%Z.
Proof.
  unfold digits_value. generalize (chars digits) as l. intros l.
  assert (forall acc, (0 <= acc)%Z -> forallb is_digit l = true ->
            (0 <= fold_left (fun a c => 10 * a + (Z.of_N (code c) - 48)) l acc)%Z) as H.
  { induction l as [|c l IH]; intros acc Hacc Hl; [exact Hacc|].
    cbn [forallb] in Hl. apply andb_prop in Hl as [Hc Hl]. cbn [fold_left].
    apply IH; [|exact Hl]. pose proof (digit_value c Hc). lia. }
  intros Hl. apply H; [lia | exact Hl].
Qed.

(** X1. Whatever [parse_issue_identifier] returns is normalized: the team
    key has the shape of a key (a letter, then letters, digits and
    underscores), uppercasing it again changes nothing, and the number
    is not negative. *)
Theorem parse_issue_identifier_normal (identifier team_key : string) (number : Z) :
  parse_issue_identifier identifier = inr (team_key, number) ->
  team_shape team_key = true /\ py_upper team_key = team_key /\ (0 <= number)%Z.
Proof.
  unfold parse_issue_identifier.
  destruct (re_match_identifier (py_strip identifier)) as [[g1 g2]|] eqn:Hm;
    [|discriminate].
  unfold py_int. destruct (Nat.ltb int_max_str_digits (String.length g2)); [discriminate|].
  cbn [rbind]. intros [= <- <-]. apply re_match_identifier_sound in Hm as (Ht & Hd & _).
  split; [now apply py_upper_team_shape | split; [apply py_upper_idem|]].
  apply digits_value_nonneg. unfold digits_shape in Hd.
  now apply andb_prop in Hd as [_ Hd].
Qed.

Lemma parse_issue_identifier_normal_witness :
  team_shape "ENG_X" = true /\ py_upper "ENG_X" = "ENG_X" /\ (0 <= 7)%Z.
Proof.
  apply (parse_issue_identifier_normal "eng_x-007" "ENG_X" 7). reflexivity.
Defined.

(** X2. Whitespace around an identifier does not change what
    [parse_issue_identifier] returns for it. *)
Theorem parse_issue_identifier_padded (pre post identifier : string) (r : string * Z) :
  all_space pre = true -> all_space post = true ->
  parse_issue_identifier identifier = inr r ->
  parse_issue_identifier (pre ++ identifier ++ post) = inr r.
Proof.
  intros Hpre Hpost. unfold parse_issue_identifier.
  rewrite (py_strip_padded pre post identifier Hpre Hpost).
  destruct (re_match_identifier (py_strip identifier)) as [[g1 g2]|];
    [trivial | discriminate].
Qed.

Lemma parse_issue_identifier_padded_witness :
  parse_issue_identifier ("  " ++ "eng-42" ++ String newline EmptyString) = inr ("ENG", 42%Z).
Proof.
  apply (parse_issue_identifier_padded "  " (String newline EmptyString) "eng-42");
    reflexivity.
Defined.

(** ** Authorization header, further *)

Lemma startswith_app (p s : string) : startswith p (p ++ s) = true.
Proof.
  unfold startswith. induction p as [|c p IH].
  - now destruct s.
  - change (String.prefix (String c p) (String c p ++ s))
      with (if ascii_dec c c then String.prefix p (p ++ s) else false).
    destruct (ascii_dec c c); [exact IH | congruence].
Qed.

Lemma py_lower_Bearer (token : string) :
  py_lower ("Bearer " ++ token) = "bearer " ++ py_lower token.
Proof. unfold py_lower. now rewrite chars_app, map_app, str_app. Qed.

(** X3. Formatting is idempotent: a header that [format_auth_header] built
    goes through it unchanged under the same hint, so the "Bearer "
    prefix is never put twice. *)
Theorem format_auth_header_idempotent (token : string) (scheme : option string) :
  format_auth_header (format_auth_header token scheme) scheme
  = format_auth_header token scheme.
Proof.
  assert (Hno : forall t, (if startswith "bearer " (py_lower t) then t
                           else if contains " " t then t else t) = t).
  { intros t. now destruct (startswith "bearer " (py_lower t)), (contains " " t). }
  unfold format_auth_header. rewrite !Hno.
  destruct scheme as [s|]; [|reflexivity].
  destruct (nonempty s); [|reflexivity].
  destruct (member (py_lower (py_strip s)) ["bearer"; "oauth"]).
  - destruct (startswith "bearer " (py_lower token)) eqn:Hb.
    + now rewrite Hb.
    + now rewrite py_lower_Bearer, startswith_app.
  - now destruct (member (py_lower (py_strip s)) ["raw"; "token"]).
Qed.

(** ** Env loader, further *)

Lemma env_line_entry (env : gmap string string) (line : string) :
  is_entry line = true ->
  env_line env line =
  <[py_strip (fst (split_once "=" (effective_line line))) :=
      env_value (snd (split_once "=" (effective_line line)))]> env.
Proof.
  unfold is_entry. intros H.
  apply andb_prop in H as [H Heq]. apply andb_prop in H as [Hne Hc].
  apply negb_true_iff in Hc.
  unfold env_line. fold (effective_line line). rewrite Hne, Hc, Heq. cbn [negb orb].
  now destruct (split_once "=" (effective_line line)).
Qed.

(** X4. A line that is blank, starts with "#" once trimmed, or holds no
    equals sign leaves the mapping of the env loader as it was. *)
Theorem env_line_skip (env : gmap string string) (line : string) :
  is_entry line = false -> env_line env line = env.
Proof.
  unfold is_entry, env_line. fold (effective_line line).
  destruct (nonempty (py_strip line)); [|reflexivity].
  destruct (startswith "#" (py_strip line)); [reflexivity|].
  cbn [negb andb orb]. now intros ->.
Qed.

Lemma env_line_skip_witness :
  env_line {[ "A" := "1" ]} "  # A=2" = {[ "A" := "1" ]} /\
  env_line {[ "A" := "1" ]} "export A" = {[ "A" := "1" ]}.
Proof. split; apply env_line_skip; reflexivity. Defined.

Lemma existsb_strip_by (f p : ascii -> bool) (l : list ascii) :
  existsb f l = false -> existsb f (strip_by p l) = false.
Proof.
  destruct (strip_by_split p l) as (a & b & E & _ & _). rewrite E at 1.
  rewrite !existsb_app. intros H.
  apply orb_false_elim in H as [_ H]. now apply orb_false_elim in H as [H _].
Qed.

Lemma split_at_no_sep (c : ascii) (l : list ascii) :
  existsb (Ascii.eqb c) (fst (split_at c l)) = false.
Proof.
  induction l as [|x l IH]; [reflexivity|]. simpl.
  destruct (Ascii.eqb x c) eqn:Hx; [reflexivity|].
  destruct (split_at c l) as [a b]. simpl in *. now rewrite Ascii.eqb_sym, Hx.
Qed.

Lemma env_line_normal (env : gmap string string) (line : string) :
  env_normal env -> env_normal (env_line env line).
Proof.
  intros Henv. destruct (is_entry line) eqn:He.
  - rewrite (env_line_entry env line He). intros k v.
    rewrite lookup_insert. case_decide as Hk; [|apply Henv].
    intros [= <-]. subst k. split; [apply py_strip_idem | split].
    + unfold contains, py_strip, split_once. rewrite chars_str.
      apply existsb_strip_by.
      pose proof (split_at_no_sep "=" (chars (effective_line line))) as H.
      destruct (split_at "=" (chars (effective_line line))) as [a b].
      cbn [fst] in *. now rewrite chars_str.
    + unfold env_value, py_strip_chars. now rewrite chars_str, strip_by_idem.
  - now rewrite (env_line_skip env line He).
Qed.

(** X5. Every entry of the mapping the env loader builds from a file has a
    trimmed key without an equals sign and a value that neither starts
    nor ends with a single quote. *)
Theorem parse_env_text_normal (text : string) : env_normal (parse_env_text text).
Proof.
  unfold parse_env_text. generalize (splitlines text) as lines. intros lines.
  assert (forall env, env_normal env -> env_normal (fold_left env_line lines env)) as H.
  { induction lines as [|line lines IH]; intros env Henv; [exact Henv|].
    cbn [fold_left]. apply IH. now apply env_line_normal. }
  apply H. intros k v Hk. rewrite lookup_empty in Hk. discriminate Hk.
Qed.

Lemma split_at_app (c : ascii) (a b : list ascii) :
  existsb (Ascii.eqb c) a = false -> split_at c (a ++ c :: b) = (a, b).
Proof.
  induction a as [|x a IH]; simpl.
  - now rewrite Ascii.eqb_refl.
  - intros H. apply orb_false_elim in H as [Hx Ha].
    rewrite Ascii.eqb_sym, Hx. now rewrite (IH Ha).
Qed.

(** X6. A later line of an env file overrides the earlier ones: when the
    last line defines a key, the loaded mapping holds that line's value
    for the key, whatever came before. *)
Theorem parse_env_text_last_wins (text : string) (lines : list string)
    (line key value : string) :
  splitlines text = (lines ++ [line])%list ->
  is_entry line = true ->
  effective_line line = key ++ "=" ++ value ->
  contains "=" key = false ->
  parse_env_text text !! py_strip key = Some (env_value value).
Proof.
  intros Hl He Hk Hc. unfold parse_env_text. rewrite Hl, fold_left_app. cbn [fold_left].
  rewrite (env_line_entry _ line He), Hk. unfold split_once.
  rewrite !chars_app. change (chars "=") with ["="%char]. cbn [app].
  rewrite (split_at_app _ _ _ Hc). cbn [fst snd]. rewrite !str_chars.
  apply lookup_insert_eq.
Qed.

Lemma parse_env_text_last_wins_witness :
  parse_env_text ("A=1" ++ String newline "B=2" ++ String newline "export A = '3'")
  !! "A" = Some "3".
Proof.
  apply (parse_env_text_last_wins _ ["A=1"; "B=2"] "export A = '3'" "A " " '3'");
    reflexivity.
Defined.

(** ** Upstream errors, further *)

(** X7. [raise_on_errors] lets a response through exactly when it is an
    object whose "errors" entry is absent or falsy; every other response
    makes it raise. *)
Theorem raise_on_errors_passes_iff (response : json) :
  raise_on_errors response = inr tt <->
  exists d, response = JObj d /\ json_truthy (default JNull (d !! "errors")) = false.
Proof.
  unfold raise_on_errors. split.
  - destruct response as [| | | | | |d]; try discriminate. cbn [py_get rbind].
    intros H. exists d. split; [reflexivity|].
    destruct (json_truthy (default JNull (d !! "errors"))); [|reflexivity].
    cbn [negb] in H.
    destruct (py_iter (default JNull (d !! "errors"))) as [e|items]; [discriminate|].
    cbn [rbind] in H.
    destruct (join_items _ items); discriminate.
  - intros (d & -> & H). cbn [py_get rbind]. now rewrite H.
Qed.

Lemma raise_on_errors_passes_iff_witness :
  raise_on_errors (JObj {[ "errors" := JList [] ]}) = inr tt.
Proof.
  apply (proj2 (raise_on_errors_passes_iff (JObj {[ "errors" := JList [] ]}))).
  exists {[ "errors" := JList [] ]}. split; reflexivity.
Defined.

Lemma parse_env_text_normal_witness :
  py_strip "KEY" = "KEY" /\ contains "=" "KEY" = false /\
  py_strip_chars squote ("a=" ++ dquote ++ "b") = "a=" ++ dquote ++ "b".
Proof.
  apply (parse_env_text_normal ("  KEY = 'a=" ++ dquote ++ "b' ") "KEY").
  vm_compute. reflexivity.
Defined.

(** ** Requests *)

Lemma requests_app (t t' : list event) :
  requests (t ++ t') = requests t + requests t'.
Proof.
  induction t as [|ev t IH]; [reflexivity|].
  destruct ev; cbn [app requests]; rewrite IH; reflexivity.
Qed.

Lemma bind_fst {A B} (m : M A) (k : A -> M B) (w : World) :
  fst (bind m k w) =
  (fst (m w) ++ match snd (m w) with inr a => fst (k a w) | inl _ => [] end)%list.
Proof.
  unfold bind. destruct (m w) as [t [e|a]]; cbn [fst snd].
  - now rewrite app_nil_r.
  - now destruct (k a w).
Qed.

Lemma quiet_ret {A} (a : A) : quiet (ret a).
Proof. intros w. reflexivity. Qed.

Lemma quiet_raise {A} (e : exn) : quiet (@raise A e).
Proof. intros w. reflexivity. Qed.

Lemma quiet_lift {A} (r : result A) : quiet (lift r).
Proof. intros w. reflexivity. Qed.

Lemma quiet_ask : quiet ask.
Proof. intros w. reflexivity. Qed.

Lemma quiet_emit (ev : event) : is_request ev = false -> quiet (emit ev).
Proof. intros H w. destruct ev; try reflexivity. discriminate H. Qed.

Lemma once_emit (ev : event) : once (emit ev).
Proof. intros w. destruct ev; cbn; lia. Qed.

Lemma quiet_once {A} (m : M A) : quiet m -> once m.
Proof. intros H w. rewrite (H w). lia. Qed.

Lemma quiet_bind {A B} (m : M A) (k : A -> M B) :
  quiet m -> (forall a, quiet (k a)) -> quiet (bind m k).
Proof.
  intros Hm Hk w. rewrite bind_fst, requests_app, (Hm w).
  destruct (snd (m w)) as [e|a]; [reflexivity | apply Hk].
Qed.

Lemma once_after_quiet {A B} (m : M A) (k : A -> M B) :
  quiet m -> (forall a, once (k a)) -> once (bind m k).
Proof.
  intros Hm Hk w. rewrite bind_fst, requests_app, (Hm w).
  destruct (snd (m w)) as [e|a]; [cbn; lia | apply Hk].
Qed.

Lemma once_then_quiet {A B} (m : M A) (k : A -> M B) :
  once m -> (forall a, quiet (k a)) -> once (bind m k).
Proof.
  intros Hm Hk w. rewrite bind_fst, requests_app.
  pose proof (Hm w).
  destruct (snd (m w)) as [e|a]; [cbn; lia | rewrite (Hk a w); lia].
Qed.

Lemma quiet_path_exists (p : string) : quiet (path_exists p).
Proof. intros w. reflexivity. Qed.

Lemma quiet_read_text (p : string) : quiet (read_text p).
Proof. intros w. unfold read_text, bind, ask, emit. cbn. now destruct (files w !! p). Qed.

Lemma quiet_getenv (name : string) : quiet (getenv name).
Proof. intros w. reflexivity. Qed.

Ltac quiet_step :=
  first
    [ apply quiet_ret | apply quiet_raise | apply quiet_lift | apply quiet_ask
    | apply quiet_path_exists | apply quiet_read_text | apply quiet_getenv
    | apply quiet_emit; reflexivity
    | assumption
    | apply quiet_bind; [|intros ?]
    | match goal with
      | |- quiet (if ?c then _ else _) => destruct c
      | |- quiet (match ?x with _ => _ end) => destruct x
      end ].

Ltac quiet := repeat quiet_step.
Ltac quiet_using lem := repeat first [apply lem | quiet_step].

Section ScriptFurther.

Variable json_loads : string -> option json.
Variable json_dumps : option Z -> json -> string.
Variable Path : string -> string.
Variable parent : string -> string.
Variable Request_error : string -> option exn.

Local Abbreviation load_env_file := Script.load_env_file.
Local Abbreviation resolve_env_path := (Script.resolve_env_path Path).
Local Abbreviation load_config := (Script.load_config json_loads).
Local Abbreviation post_graphql := (Script.post_graphql json_loads json_dumps Request_error).
Local Abbreviation write_output := (Script.write_output json_dumps Path parent).
Local Abbreviation parse_variables := (Script.parse_variables json_loads Path).
Local Abbreviation issue_finish := (Script.issue_finish json_dumps Path parent).
Local Abbreviation main_init := (Script.main_init json_dumps).
Local Abbreviation main_issue :=
  (Script.main_issue json_loads json_dumps Path parent Request_error).
Local Abbreviation main_listing :=
  (Script.main_listing json_loads json_dumps Path parent Request_error).
Local Abbreviation main_custom :=
  (Script.main_custom json_loads json_dumps Path parent Request_error).
Local Abbreviation main_env_data := (Script.main_env_data Path).
Local Abbreviation main := (Script.main json_loads json_dumps Path parent Request_error).
Local Abbreviation is_init := Script.is_init.

Lemma quiet_load_config (p : string) : quiet (load_config p).
Proof. unfold Script.load_config. quiet. Qed.

Lemma quiet_first_existing (candidates : list string) :
  quiet (Script.first_existing Path candidates).
Proof. induction candidates as [|c cs IH]; cbn [Script.first_existing]; quiet. Qed.

Lemma quiet_main_env_data (args : Args) (config : json) : quiet (main_env_data args config).
Proof.
  unfold Script.main_env_data, Script.resolve_env_path, Script.load_env_file.
  quiet_using quiet_first_existing.
Qed.

Lemma quiet_resolve_token (args : Args) (env_data : gmap string string) :
  quiet (Script.resolve_token args env_data).
Proof. unfold Script.resolve_token. quiet. Qed.

Lemma quiet_write_output (data : json) (out_path : option string) :
  quiet (write_output data out_path).
Proof. unfold Script.write_output. quiet. Qed.

Lemma quiet_parse_variables (value : option string) : quiet (parse_variables value).
Proof. unfold Script.parse_variables, Script.loads_or_raise. quiet. Qed.

Lemma quiet_issue_finish (args : Args) (response : json) : quiet (issue_finish args response).
Proof. unfold Script.issue_finish. quiet_using quiet_write_output. Qed.

Lemma quiet_main_init (args : Args) (p : string) (config : json) :
  quiet (main_init args p config).
Proof.
  unfold Script.main_init, Script.or_else, Script.config_get, Script.write_config. quiet.
Qed.

Lemma post_graphql_trace
    (endpoint token : string) (auth_scheme : json) (query : string) (variables : json)
    (extra_headers : list (string * string)) (w : World) :
  fst (post_graphql endpoint token auth_scheme query variables extra_headers w) = [] \/
  exists authorization body,
    Script.auth_header_of token auth_scheme = inr authorization /\
    fst (post_graphql endpoint token auth_scheme query variables extra_headers w)
    = [EvUrlopen {| req_url := endpoint;
                    req_headers := ("Content-Type", "application/json")
                                   :: ("Authorization", authorization) :: extra_headers;
                    req_body := body |}].
Proof.
  unfold Script.post_graphql.
  destruct (Request_error endpoint) as [e|]; [left; reflexivity|].
  rewrite bind_ret.
  destruct (Script.auth_header_of token auth_scheme) as [e|authorization] eqn:Ha;
    [left; reflexivity|].
  rewrite bind_lift_inr. right. eexists authorization, _. split; [reflexivity|].
  unfold bind, ask, emit. cbn.
  match goal with |- context [urlopen w ?r] => destruct (urlopen w r) as [b|st b|] end;
    [destruct (json_loads b)| |]; reflexivity.
Qed.

(** X8. [post_graphql] sends at most one request and touches nothing
    else.  When [Request] rejects the URL, that error is raised and
    nothing is sent; when the scheme hint is unusable, that error is
    raised and nothing is sent; otherwise exactly one request is sent,
    to the endpoint, with the JSON content type first, then the
    Authorization header that [format_auth_header] gives for the token
    and the hint, then the caller's headers, and the answer to it
    decides the outcome. *)
Theorem post_graphql_single_request
    (endpoint token : string) (auth_scheme : json) (query : string) (variables : json)
    (extra_headers : list (string * string)) (w : World) :
  (forall e, Request_error endpoint = Some e ->
     post_graphql endpoint token auth_scheme query variables extra_headers w
     = ([], inl e)) /\
  (forall e, Request_error endpoint = None ->
     Script.auth_header_of token auth_scheme = inl e ->
     post_graphql endpoint token auth_scheme query variables extra_headers w
     = ([], inl e)) /\
  (forall authorization, Request_error endpoint = None ->
     Script.auth_header_of token auth_scheme = inr authorization ->
     post_graphql endpoint token auth_scheme query variables extra_headers w
     = ([EvUrlopen (graphql_request json_dumps endpoint authorization query variables
                      extra_headers)],
        reply_outcome json_loads
          (urlopen w (graphql_request json_dumps endpoint authorization query variables
                        extra_headers)))).
Proof.
  unfold Script.post_graphql. split; [|split].
  - now intros e ->.
  - intros e -> Ha. now rewrite bind_ret, Ha.
  - intros a -> Ha. rewrite bind_ret, Ha, bind_lift_inr.
    unfold bind, ask, emit, graphql_request, reply_outcome, decoded. cbn.
    match goal with |- context [urlopen w ?r] => destruct (urlopen w r) as [b|st b|] end;
      [destruct (json_loads b)| |]; reflexivity.
Qed.

Lemma once_post_graphql
    (endpoint token : string) (auth_scheme : json) (query : string) (variables : json)
    (extra_headers : list (string * string)) :
  once (post_graphql endpoint token auth_scheme query variables extra_headers).
Proof.
  intros w.
  destruct (post_graphql_trace endpoint token auth_scheme query variables
              extra_headers w) as [-> | (a & b & _ & ->)]; cbn; lia.
Qed.

Ltac quiet_script :=
  repeat first
    [ apply quiet_load_config | apply quiet_main_env_data | apply quiet_resolve_token
    | apply quiet_main_init | apply quiet_parse_variables | apply quiet_write_output
    | apply quiet_issue_finish | quiet_step ].

Ltac once_script :=
  repeat first
    [ apply once_then_quiet; [apply once_post_graphql | intros ?; solve [quiet_script]]
    | apply once_after_quiet; [solve [quiet_script] | intros ?]
    | match goal with
      | |- once (let '(_, _) := ?x in _) => destruct x
      | |- once (if ?c then _ else _) => destruct c
      | |- once (match ?x with _ => _ end) => destruct x
      end
    | apply quiet_once; solve [quiet_script] ].

Lemma once_main_issue (args : Args) (config : json) (token : string)
    (extra_headers : list (string * string)) :
  once (main_issue args config token extra_headers).
Proof.
  unfold Script.main_issue, Script.or_else, Script.config_get. once_script.
Qed.

Lemma once_main_listing (what key var query : string) (args : Args) (config : json)
    (token : string) (extra_headers : list (string * string)) :
  once (main_listing what key var query args config token extra_headers).
Proof.
  unfold Script.main_listing, Script.or_else, Script.config_get. once_script.
Qed.

Lemma once_main_custom (args : Args) (config : json) (token : string)
    (extra_headers : list (string * string)) :
  once (main_custom args config token extra_headers).
Proof.
  unfold Script.main_custom, Script.or_else, Script.config_get. once_script.
Qed.

(** X9. A run of [main] sends at most one request, whatever the command
    line and the world, and a run of init sends none. *)
Theorem main_single_request (args : Args) (w : World) :
  requests (fst (main args w)) <= 1 /\
  (is_init (command args) = true -> requests (fst (main args w)) = 0).
Proof.
  split.
  - revert w. change (once (main args)). unfold Script.main, Script.config_get.
    apply once_after_quiet; [apply quiet_load_config | intros config].
    destruct (is_init (command args)); [apply quiet_once, quiet_main_init|].
    repeat (apply once_after_quiet; [solve [quiet_script] | intros ?]).
    destruct (command args);
      [ apply quiet_once, quiet_ret | apply once_main_issue | apply once_main_listing
      | apply once_main_listing | apply once_main_custom ].
  - intros Hinit. revert w. change (quiet (main args)). unfold Script.main.
    rewrite Hinit. quiet_script.
Qed.

(** X10. The env file is looked for in a fixed order: a non-empty --env
    wins and nothing is probed; else a non-empty envFile of the config
    wins, again unprobed; else .env.local when it exists; else .env when
    it exists; else there is none. *)
Theorem resolve_env_path_precedence
    (arg_env : option string) (config : json) (d : gmap string json) (w : World) :
  (forall s, arg_env = Some s -> nonempty s = true ->
     resolve_env_path arg_env config w = ([], inr (Some (Path s)))) /\
  (forall s, truthy arg_env = false -> d !! "envFile" = Some (JStr s) -> nonempty s = true ->
     resolve_env_path arg_env (JObj d) w = ([], inr (Some (Path s)))) /\
  (truthy arg_env = false -> json_truthy (default JNull (d !! "envFile")) = false ->
     resolve_env_path arg_env (JObj d) w =
     if on_disk w (Path ".env.local")
     then ([EvExists (Path ".env.local")], inr (Some (Path ".env.local")))
     else if on_disk w (Path ".env")
          then ([EvExists (Path ".env.local"); EvExists (Path ".env")],
                inr (Some (Path ".env")))
          else ([EvExists (Path ".env.local"); EvExists (Path ".env")], inr None)).
Proof.
  unfold Script.resolve_env_path. split; [|split].
  - intros s -> Hs. unfold truthy. now rewrite Hs.
  - intros s -> Hd Hs. cbn [py_get]. rewrite Hd, bind_lift_inr.
    cbn [from_option Datatypes.id json_truthy]. now rewrite Hs.
  - intros -> Hd. cbn [py_get]. rewrite bind_lift_inr, Hd.
    unfold Script.first_existing, bind, path_exists, ask, emit, ret, on_disk. cbn.
    destruct (bool_decide (is_Some (files w !! Path ".env.local"))
              || bool_decide (Path ".env.local" ∈ dirs w)); [reflexivity|].
    destruct (bool_decide (is_Some (files w !! Path ".env"))
              || bool_decide (Path ".env" ∈ dirs w)); reflexivity.
Qed.


Lemma init_saved_env_file (args : Args) (d : gmap string json) :
  init_env_file args (init_saved args d) = init_env_file args d.
Proof.
  assert (init_env_file args d = default JNull (d !! "envFile") \/
          truthy (env args) = true) as [Hef | He].
  { unfold init_env_file. destruct (truthy (env args)); auto. }
  2: { unfold init_env_file. now rewrite He. }
  assert (truthy (env args) = false \/ truthy (env args) = true) as [He | He]
    by (destruct (truthy (env args)); auto).
  2: { unfold init_env_file. now rewrite He. }
  unfold init_env_file at 1. rewrite He. unfold init_saved.
  set (ef := init_env_file args d) in *.
  assert (Script.init_updates args ef !! "envFile" = Some ef) as Hu.
  { apply init_updates_lookup. cbn. tauto. }
  destruct (json_truthy ef) eqn:Ht.
  - rewrite (lookup_union_Some_l _ _ _ ef); [reflexivity|].
    apply clean_lookup. now split.
  - rewrite lookup_union_r; [now rewrite Hef|].
    destruct (Script.clean (Script.init_updates args ef) !! "envFile") as [v|] eqn:Hc;
      [|reflexivity].
    apply clean_lookup in Hc as [Hv Htv]. rewrite Hu in Hv. injection Hv as <-.
    congruence.
Qed.

Lemma init_saved_idem (args : Args) (d : gmap string json) :
  init_saved args (init_saved args d) = init_saved args d.
Proof.
  unfold init_saved at 1. rewrite init_saved_env_file. unfold init_saved.
  now rewrite (assoc_L (∪)), (idemp_L (∪)).
Qed.

(** X12. [init] is idempotent: run again with the same command line on
    the config it has just saved, it saves that same config, the world
    letting the config file be written both times. *)
Theorem init_idempotent
    (args : Args) (w w' : World) (t t' : list event) (d : gmap string json) :
  is_init (command args) = true ->
  load_config (Path (config args)) w = (t, inr (JObj d)) ->
  load_config (Path (config args)) w' = (t', inr (JObj (init_saved args d))) ->
  write_failure w (Path (config args)) = None ->
  write_failure w' (Path (config args)) = None ->
  exists saved message,
    main args w =
      ((t ++ [EvWriteText (Path (config args)) saved; EvPrint message])%list, inr tt) /\
    main args w' =
      ((t' ++ [EvWriteText (Path (config args)) saved; EvPrint message])%list, inr tt) /\
    saved = json_dumps (Some 2%Z) (JObj (init_saved args d)) ++ String newline EmptyString.
Proof.
  intros Hinit Hl Hl' Hw Hw'. eexists _, _. split; [|split; [|reflexivity]].
  - rewrite (main_init_outcome json_loads json_dumps Path parent Request_error
               args w t d Hinit Hl), Hw. reflexivity.
  - rewrite (main_init_outcome json_loads json_dumps Path parent Request_error
               args w' t' _ Hinit Hl'), Hw'. now rewrite init_saved_idem.
Qed.

Lemma parse_issue_identifier_invalid (identifier : string) :
  ~ identifier_shape (py_strip identifier) ->
  parse_issue_identifier identifier = inl (invalid_identifier identifier).
Proof.
  intros Hno. unfold parse_issue_identifier.
  destruct (re_match_identifier (py_strip identifier)) as [[g1 g2]|] eqn:Hm;
    [|reflexivity].
  exfalso. apply re_match_identifier_sound in Hm as (Ht & Hd & [E|E]).
  - apply Hno. exists g1, g2. auto.
  - unfold py_strip in E. rewrite chars_str in E.
    apply strip_by_last in E. discriminate E.
Qed.

(** [main] up to the choice of the branch, for a run that gets there. *)
Lemma main_dispatch (args : Args) (w : World) (t0 t1 t2 : list event)
    (d : gmap string json) (env_data : gmap string string) (tok : string) :
  is_init (command args) = false ->
  load_config (Path (config args)) w = (t0, inr (JObj d)) ->
  d !! "authMode" <> Some (JStr "mcp") ->
  main_env_data args (JObj d) w = (t1, inr env_data) ->
  Script.resolve_token args env_data w = (t2, inr (Some tok)) ->
  nonempty tok = true ->
  forall branch : M unit,
    branch = match command args with
             | Init => ret tt
             | Issue => main_issue args (JObj d) tok (extra_headers_of args)
             | Project => main_listing "project" "projectId" "projectId" QUERY_PROJECT
                            args (JObj d) tok (extra_headers_of args)
             | Team => main_listing "team" "teamId" "teamId" QUERY_TEAM
                         args (JObj d) tok (extra_headers_of args)
             | Custom => main_custom args (JObj d) tok (extra_headers_of args)
             end ->
    main args w = ((t0 ++ t1 ++ t2 ++ fst (branch w))%list, snd (branch w)).
Proof.
  intros Hinit Hload Hmode Henv Htok Hne branch ->.
  unfold Script.main. rewrite (bind_run _ _ _ _ _ Hload), Hinit.
  unfold Script.config_get. cbn [py_get]. rewrite bind_lift_inr.
  match goal with |- context [bind _ ?k w] =>
    destruct (auth_mode_check d k w) as [[Hm _] | [_ ->]] end; [contradiction|].
  rewrite (bind_run _ _ _ _ _ Henv). cbn [fst snd].
  rewrite (bind_run _ _ _ _ _ Htok). cbn [fst snd].
  change (truthy (Some tok)) with (nonempty tok). rewrite Hne. cbn [negb].
  rewrite bind_ret. cbn [from_option Datatypes.id]. fold (extra_headers_of args).
  reflexivity.
Qed.

Lemma main_dispatch_quiet (args : Args) (w : World) (t0 t1 t2 : list event)
    (d : gmap string json) (env_data : gmap string string) (r : result (option string)) :
  load_config (Path (config args)) w = (t0, inr (JObj d)) ->
  main_env_data args (JObj d) w = (t1, inr env_data) ->
  Script.resolve_token args env_data w = (t2, r) ->
  requests (t0 ++ t1 ++ t2) = 0.
Proof.
  intros Hload Henv Htok. rewrite !requests_app.
  pose proof (quiet_load_config (Path (config args)) w) as H0. rewrite Hload in H0.
  pose proof (quiet_main_env_data args (JObj d) w) as H1. rewrite Henv in H1.
  pose proof (quiet_resolve_token args env_data w) as H2. rewrite Htok in H2.
  cbn [fst] in *. lia.
Qed.

(** X13. In an issue run without --id that gets as far as its branch (the
    config is loaded, the auth mode is not mcp, a token is found),
    whatever [parse_issue_identifier] raises on the identifier ends the
    run, and no request has been sent: the run has only loaded the
    config and the env file and looked up the token. *)
Theorem invalid_identifier_rejected_first
    (args : Args) (w : World) (t0 t1 t2 : list event) (d : gmap string json)
    (env_data : gmap string string) (tok ident : string) (e : exn) :
  command args = Issue ->
  load_config (Path (config args)) w = (t0, inr (JObj d)) ->
  d !! "authMode" <> Some (JStr "mcp") ->
  main_env_data args (JObj d) w = (t1, inr env_data) ->
  Script.resolve_token args env_data w = (t2, inr (Some tok)) ->
  nonempty tok = true ->
  truthy (id args) = false ->
  identifier args = Some ident -> nonempty ident = true ->
  parse_issue_identifier ident = inl e ->
  main args w = ((t0 ++ t1 ++ t2)%list, inl e) /\ requests (t0 ++ t1 ++ t2) = 0.
Proof.
  intros Hcmd Hload Hmode Henv Htok Hne Hid Hident Hne' Hparse.
  split; [|exact (main_dispatch_quiet args w t0 t1 t2 d env_data _ Hload Henv Htok)].
  assert (main_issue args (JObj d) tok (extra_headers_of args) w = ([], inl e)) as Hb.
  { unfold Script.main_issue.
    rewrite Hid. unfold truthy at 1. rewrite Hident, Hne'. cbn [negb andb].
    rewrite bind_ret. cbn [from_option Datatypes.id]. now rewrite Hparse. }
  rewrite (main_dispatch args w t0 t1 t2 d env_data tok
             ltac:(now rewrite Hcmd) Hload Hmode Henv Htok Hne _ eq_refl).
  rewrite Hcmd, Hb. cbn [fst snd]. now rewrite app_nil_r.
Qed.

Lemma or_else_scheme (args : Args) (d : gmap string json) (w : World) :
  Script.or_else (auth_scheme args) (Script.config_get (JObj d) "authScheme") w
  = ([], inr (scheme_of args d)).
Proof.
  unfold Script.or_else, Script.config_get, scheme_of.
  now destruct (truthy (auth_scheme args)).
Qed.

(** X14. When --id and --identifier are both given, the lookup goes by
    id and the identifier is not parsed, yet the node list of an
    identifier lookup is still demanded of the response: a response
    without nodes at data.issues.nodes fails as not found. *)
Theorem id_and_identifier_both_given
    (args : Args) (d : gmap string json) (token : string)
    (extra_headers : list (string * string)) (w : World)
    (issue_id ident : string) (t : list event) (response : json) :
  id args = Some issue_id -> nonempty issue_id = true ->
  identifier args = Some ident -> nonempty ident = true ->
  post_graphql (endpoint args) token (scheme_of args d) QUERY_ISSUE_BY_ID
    (Script.dict [("issueId", JStr issue_id); ("includeDetails", JBool (details args))])
    extra_headers w = (t, inr response) ->
  raise_on_errors response = inr tt ->
  Script.nodes_at response = inr (JList []) ->
  main_issue args (JObj d) token extra_headers w =
  (t, inl (RuntimeError ("No issue found for identifier " ++ ident))).
Proof.
  intros Hid Hne Hident Hne' Hpost Herr Hnodes. unfold Script.main_issue.
  unfold truthy at 1 3. rewrite Hid, Hne. cbn [negb andb].
  rewrite !bind_ret. cbn [of_opt].
  unfold bind at 1. rewrite or_else_scheme.
  rewrite (bind_run _ _ _ _ _ Hpost). cbn [app].
  unfold Script.issue_finish. rewrite Herr, bind_lift_inr.
  unfold truthy. rewrite Hident, Hne'. cbn [from_option Datatypes.id].
  unfold Script.check_identifier_matches. rewrite Hnodes. cbn.
  now rewrite app_nil_r.
Qed.

(** X15. A project run that gets as far as its branch (the config is
    loaded, the auth mode is not mcp, a token is found) with no --id and
    no truthy projectId in the config ends with the usage error, and no
    request has been sent; a team run likewise, with teamId. *)
Theorem listing_id_source
    (args : Args) (w : World) (t0 t1 t2 : list event) (d : gmap string json)
    (env_data : gmap string string) (tok what key : string) :
  (command args = Project /\ what = "project" /\ key = "projectId") \/
  (command args = Team /\ what = "team" /\ key = "teamId") ->
  load_config (Path (config args)) w = (t0, inr (JObj d)) ->
  d !! "authMode" <> Some (JStr "mcp") ->
  main_env_data args (JObj d) w = (t1, inr env_data) ->
  Script.resolve_token args env_data w = (t2, inr (Some tok)) ->
  nonempty tok = true ->
  truthy (id args) = false ->
  json_truthy (default JNull (d !! key)) = false ->
  main args w =
    ((t0 ++ t1 ++ t2)%list, inl (SystemExit 2 (what ++ " requires --id or config " ++ key)))
  /\ requests (t0 ++ t1 ++ t2) = 0.
Proof.
  intros Hcmd Hload Hmode Henv Htok Hne Hid Hkey.
  split; [|exact (main_dispatch_quiet args w t0 t1 t2 d env_data _ Hload Henv Htok)].
  assert (is_init (command args) = false) as Hinit
    by (destruct Hcmd as [(-> & _) | (-> & _)]; reflexivity).
  assert (forall var query,
            main_listing what key var query args (JObj d) tok (extra_headers_of args) w
            = ([], inl (SystemExit 2 (what ++ " requires --id or config " ++ key)))) as Hb.
  { intros var query. unfold Script.main_listing, Script.or_else, Script.config_get.
    rewrite Hid. cbn [py_get]. now rewrite bind_lift_inr, Hkey. }
  rewrite (main_dispatch args w t0 t1 t2 d env_data tok
             Hinit Hload Hmode Henv Htok Hne _ eq_refl).
  destruct Hcmd as [(-> & -> & ->) | (-> & -> & ->)];
    rewrite Hb; cbn [fst snd]; now rewrite app_nil_r.
Qed.

(** X16. The variables of a custom query: nothing given is the empty
    object and nothing is touched; a value starting with "@" names a
    file, and when that file is missing the run fails on reading it; any
    other value that names an existing file is decoded from the text of
    that file, not from the value itself. *)
Theorem parse_variables_sources (value : option string) (w : World) :
  (truthy value = false -> parse_variables value w = ([], inr (JObj ∅))) /\
  (forall v, value = Some v -> startswith "@" v = true ->
     files w !! Path (slice_from 1 v) = None ->
     parse_variables value w =
     ([EvReadText (Path (slice_from 1 v))], inl (OSError (Path (slice_from 1 v))))) /\
  (forall v text, value = Some v -> nonempty v = true -> startswith "@" v = false ->
     files w !! Path v = Some text ->
     parse_variables value w =
     ([EvExists (Path v); EvReadText (Path v)], decoded json_loads text)).
Proof.
  unfold Script.parse_variables, Script.loads_or_raise, decoded.
  split; [|split].
  - now intros ->.
  - intros v -> Hat Hf.
    assert (nonempty v = true) as Hne by (destruct v; [discriminate Hat | reflexivity]).
    unfold truthy. rewrite Hne. cbn [negb from_option Datatypes.id]. rewrite Hat.
    unfold bind, read_text, ask, emit, raise. cbn. now rewrite Hf.
  - intros v text -> Hne Hat Hf.
    unfold truthy. rewrite Hne. cbn [negb from_option Datatypes.id]. rewrite Hat.
    unfold bind, path_exists, read_text, ask, emit, ret, raise. cbn.
    rewrite Hf. rewrite (bool_decide_eq_true_2 _ (mk_is_Some _ _ eq_refl)). cbn.
    rewrite ?Hf. destruct (json_loads text); reflexivity.
Qed.

(** X17. [write_output] without an output path, with an empty one or
    with "-" prints the encoded data and touches no file.  With any other
    path it probes the parent directory and creates it only if it was
    missing: when that creation fails, it raises that error and the
    write is not attempted; otherwise the encoded data and a newline are
    written to the path when the world lets the file be written, and
    the error of the write is raised when it does not. *)
Theorem write_output_sinks (data : json) (out_path : option string) (w : World) :
  (truthy out_path = false \/ out_path = Some "-" ->
   write_output data out_path w = ([EvPrint (json_dumps (Some 2%Z) data)], inr tt)) /\
  (forall p, out_path = Some p -> nonempty p = true -> p <> "-" ->
   write_failure w (Path p) = None ->
   (on_disk w (parent (Path p)) = false -> mkdir_error w (parent (Path p)) = None) ->
   write_output data out_path w =
   (file_output parent w (Path p)
      (json_dumps (Some 2%Z) data ++ String newline EmptyString), inr tt)) /\
  (forall p e, out_path = Some p -> nonempty p = true -> p <> "-" ->
   on_disk w (parent (Path p)) = false -> mkdir_error w (parent (Path p)) = Some e ->
   write_output data out_path w = ([EvExists (parent (Path p))], inl e)) /\
  (forall p e, out_path = Some p -> nonempty p = true -> p <> "-" ->
   (on_disk w (parent (Path p)) = false -> mkdir_error w (parent (Path p)) = None) ->
   write_failure w (Path p) = Some e ->
   write_output data out_path w =
   (EvExists (parent (Path p))
    :: (if on_disk w (parent (Path p)) then [] else [EvMkdir (parent (Path p))]),
    inl e)).
Proof.
  split; [|split; [|split]].
  - apply write_output_stdout.
  - intros p -> Hne Hp Hw Hm.
    now apply (write_output_file json_dumps Path parent).
  - intros p e -> Hne Hp Hd Hm. unfold Script.write_output, truthy. rewrite Hne.
    cbn [negb orb]. rewrite bool_decide_eq_false_2 by congruence.
    cbn [from_option Datatypes.id].
    rewrite (bind_run _ _ _ _ _ (path_exists_run (parent (Path p)) w)), Hd. cbn [negb].
    assert (mkdir (parent (Path p)) w = ([], inl e)) as Hmk
      by (unfold mkdir, bind, ask, raise; cbn; now rewrite Hm).
    rewrite (bind_fail _ _ _ _ _ Hmk). reflexivity.
  - intros p e -> Hne Hp Hm Hw. unfold Script.write_output, truthy. rewrite Hne.
    cbn [negb orb]. rewrite bool_decide_eq_false_2 by congruence.
    cbn [from_option Datatypes.id].
    rewrite (bind_run _ _ _ _ _ (path_exists_run (parent (Path p)) w)).
    destruct (on_disk w (parent (Path p))) eqn:Hd; cbn [negb].
    + rewrite bind_ret, write_text_run, Hw. reflexivity.
    + rewrite (bind_run _ _ _ _ _ (mkdir_run _ w (Hm eq_refl))).
      rewrite write_text_run, Hw. reflexivity.
Qed.


End ScriptFurther.

(** ** Case and padding *)

Lemma drop_while_map (p : ascii -> bool) (f : ascii -> ascii) (l : list ascii) :
  (forall c, p (f c) = p c) -> drop_while p (map f l) = map f (drop_while p l).
Proof.
  intros H. induction l as [|c l IH]; [reflexivity|].
  cbn [map drop_while]. rewrite H. now destruct (p c).
Qed.

Lemma strip_by_map (p : ascii -> bool) (f : ascii -> ascii) (l : list ascii) :
  (forall c, p (f c) = p c) -> strip_by p (map f l) = map f (strip_by p l).
Proof.
  intros H. unfold strip_by, drop_while_end.
  now rewrite (drop_while_map p f l H), <- map_rev, (drop_while_map p f _ H), map_rev.
Qed.

Lemma isspace_lower (c : ascii) : isspace (lower_char c) = isspace c.
Proof. destruct c as [[] [] [] [] [] [] [] []]; reflexivity. Qed.

Lemma isspace_upper (c : ascii) : isspace (upper_char c) = isspace c.
Proof. destruct c as [[] [] [] [] [] [] [] []]; reflexivity. Qed.

Lemma lower_char_idem (c : ascii) : lower_char (lower_char c) = lower_char c.
Proof. destruct c as [[] [] [] [] [] [] [] []]; reflexivity. Qed.

Lemma hint_of_lower (s : string) : hint_of (py_lower s) = hint_of s.
Proof.
  unfold hint_of, py_strip, py_lower. rewrite !chars_str.
  rewrite (strip_by_map isspace lower_char _ isspace_lower), map_map.
  f_equal. apply map_ext. intros c. apply lower_char_idem.
Qed.

Lemma hint_of_padded (pre post s : string) :
  all_space pre = true -> all_space post = true -> hint_of (pre ++ s ++ post) = hint_of s.
Proof. intros Hpre Hpost. unfold hint_of. now rewrite py_strip_padded. Qed.

Lemma format_auth_header_by_hint (token s : string) :
  format_auth_header token (Some s) =
  if member (hint_of s) ["bearer"; "oauth"]
  then if startswith "bearer " (py_lower token) then token else "Bearer " ++ token
  else token.
Proof.
  unfold format_auth_header. fold (hint_of s).
  destruct s as [|c s].
  - cbn [nonempty]. change (hint_of EmptyString) with EmptyString. cbn [member existsb].
    now destruct (startswith "bearer " (py_lower token)), (contains " " token).
  - cbn [nonempty].
    destruct (member (hint_of (String c s)) ["bearer"; "oauth"]); [reflexivity|].
    destruct (member (hint_of (String c s)) ["raw"; "token"]); [reflexivity|].
    now destruct (startswith "bearer " (py_lower token)), (contains " " token).
Qed.

(** X19. The scheme hint is read without regard to case and to
    surrounding whitespace: lowercasing the hint and padding it with
    whitespace gives the same header. *)
Theorem format_auth_header_hint_insensitive (token pre post s : string) :
  all_space pre = true -> all_space post = true ->
  format_auth_header token (Some (pre ++ py_lower s ++ post))
  = format_auth_header token (Some s).
Proof.
  intros Hpre Hpost. rewrite !format_auth_header_by_hint.
  now rewrite (hint_of_padded pre post _ Hpre Hpost), hint_of_lower.
Qed.

Lemma format_auth_header_hint_insensitive_witness :
  format_auth_header "abc123" (Some (" " ++ py_lower "OAuth" ++ "  "))
  = format_auth_header "abc123" (Some "OAuth").
Proof. apply format_auth_header_hint_insensitive; reflexivity. Defined.

Lemma upper_char_hyphen (c : ascii) : upper_char c = hyphen -> c = hyphen.
Proof. destruct c as [[] [] [] [] [] [] [] []]; intros H; try discriminate H; reflexivity. Qed.

Lemma upper_char_digit (c : ascii) : is_digit (upper_char c) = is_digit c.
Proof. destruct c as [[] [] [] [] [] [] [] []]; reflexivity. Qed.

Lemma upper_char_fixes_digit (c : ascii) : is_digit c = true -> upper_char c = c.
Proof. destruct c as [[] [] [] [] [] [] [] []]; intros H; try discriminate H; reflexivity. Qed.

Lemma forallb_upper (P : ascii -> bool) (l : list ascii) :
  (forall c, P (upper_char c) = P c) -> forallb P (map upper_char l) = forallb P l.
Proof.
  intros H. induction l as [|c l IH]; [reflexivity|]. cbn [map forallb]. now rewrite H, IH.
Qed.

Lemma map_upper_digits (l : list ascii) :
  forallb is_digit l = true -> map upper_char l = l.
Proof.
  induction l as [|c l IH]; [reflexivity|]. cbn [forallb map]. intros H.
  apply andb_prop in H as [Hc Hl]. now rewrite (upper_char_fixes_digit c Hc), (IH Hl).
Qed.

Lemma py_upper_strip (s : string) : py_upper (py_strip s) = py_strip (py_upper s).
Proof.
  unfold py_upper, py_strip. rewrite !chars_str.
  now rewrite (strip_by_map isspace upper_char _ isspace_upper).
Qed.

(** What [parse_issue_identifier] matched, when it returns. *)
Lemma parse_issue_identifier_inv (identifier : string) (r : string * Z) :
  parse_issue_identifier identifier = inr r ->
  exists g1 g2,
    py_strip identifier = g1 ++ "-" ++ g2 /\
    team_shape g1 = true /\ digits_shape g2 = true /\
    py_int g2 = inr (digits_value g2) /\ r = (py_upper g1, digits_value g2).
Proof.
  unfold parse_issue_identifier.
  destruct (re_match_identifier (py_strip identifier)) as [[g1 g2]|] eqn:Hm;
    [|discriminate].
  intros H. assert (py_int g2 = inr (digits_value g2)) as Hi.
  { unfold py_int in *.
    now destruct (Nat.ltb int_max_str_digits (String.length g2)). }
  rewrite Hi in H. cbn [rbind] in H. injection H as <-. exists g1, g2.
  apply re_match_identifier_sound in Hm as (Ht & Hd & [E|E]); [auto 6|].
  exfalso. unfold py_strip in E. rewrite chars_str in E.
  apply strip_by_last in E. discriminate E.
Qed.

(** X20. The case of the letters of an identifier does not matter: two
    inputs that are the same once uppercased get the same answer from
    [parse_issue_identifier] whenever it gives one. *)
Theorem parse_issue_identifier_case (a b : string) (r : string * Z) :
  py_upper a = py_upper b ->
  parse_issue_identifier a = inr r ->
  parse_issue_identifier b = inr r.
Proof.
  intros Hab Ha.
  apply parse_issue_identifier_inv in Ha as (g1 & g2 & Ea & Ht & Hd & Hi & ->).
  assert (map upper_char (chars (py_strip b))
          = (map upper_char (chars g1) ++ hyphen :: map upper_char (chars g2))%list) as Hb.
  { pose proof (f_equal chars (py_upper_strip b)) as H.
    rewrite <- Hab, <- py_upper_strip, Ea in H.
    unfold py_upper in H. rewrite !chars_str, !chars_app, !map_app in H.
    exact H. }
  apply map_eq_app in Hb as (h1 & rest & Eb & Hh1 & Hrest).
  apply map_eq_cons in Hrest as (c & h2 & -> & Hc & Hh2).
  apply upper_char_hyphen in Hc as ->.
  unfold digits_shape in Hd. apply andb_prop in Hd as [Hne Hds].
  assert (forallb is_digit h2 = true) as Hh2d.
  { rewrite <- (forallb_upper is_digit h2 upper_char_digit), Hh2.
    now rewrite (forallb_upper is_digit _ upper_char_digit). }
  assert (h2 = chars g2) as ->.
  { rewrite <- (map_upper_digits h2 Hh2d), Hh2. now apply map_upper_digits. }
  assert (team_shape (str h1) = true) as Hth.
  { unfold team_shape in *. rewrite chars_str.
    destruct (chars g1) as [|x run]; [discriminate|].
    destruct h1 as [|y run']; [discriminate|].
    cbn [map] in Hh1. injection Hh1 as Hy Hrun.
    apply andb_prop in Ht as [Hx Hr].
    rewrite <- upper_char_letter, Hy, upper_char_letter, Hx. cbn [andb].
    rewrite <- (forallb_upper is_word run' upper_char_word), Hrun.
    now rewrite (forallb_upper is_word run upper_char_word). }
  assert (py_strip b = str h1 ++ "-" ++ g2) as Esb.
  { apply chars_inj. now rewrite Eb, !chars_app, chars_str. }
  unfold parse_issue_identifier. rewrite Esb.
  rewrite (re_match_identifier_complete (str h1) g2 Hth);
    [|unfold digits_shape; now rewrite Hne, Hds].
  rewrite Hi. cbn [rbind]. unfold py_upper at 1. now rewrite chars_str, Hh1.
Qed.

Lemma parse_issue_identifier_case_witness :
  parse_issue_identifier " Eng_x-42" = inr ("ENG_X", 42%Z).
Proof.
  apply (parse_issue_identifier_case " eNG_X-42" " Eng_x-42"); reflexivity.
Defined.

(** ** The further properties on sample runs *)

Lemma post_graphql_single_request_witness :
  Script.post_graphql extra_loads sample_dumps (fun _ => Some (ValueError "unknown url type"))
    "linear" "lin_api_key" JNull "query" (JObj ∅) [] (extra_world ∅ ReplyFault)
  = ([], inl (ValueError "unknown url type")) /\
  Script.post_graphql extra_loads sample_dumps sample_Request_error
    DEFAULT_ENDPOINT "lin_api_key" (JBool true) "query" (JObj ∅) []
    (extra_world ∅ ReplyFault)
  = ([], inl AttributeError) /\
  Script.post_graphql extra_loads sample_dumps sample_Request_error
    DEFAULT_ENDPOINT "lin_api_key" (JStr "bearer") "query" (JObj ∅)
    [("public-file-urls-expire-in", "60")]
    (extra_world ∅ (Reply200 "issue by id"))
  = ([EvUrlopen {| req_url := DEFAULT_ENDPOINT;
                   req_headers := [("Content-Type", "application/json");
                                   ("Authorization", "Bearer lin_api_key");
                                   ("public-file-urls-expire-in", "60")];
                   req_body := "{...}" |}],
     inr (JObj {[ "data" := JObj {[ "issue" := JObj {[ "id" := JStr "abc" ]} ]} ]})).
Proof.
  split; [|split].
  - apply (proj1 (post_graphql_single_request extra_loads sample_dumps
                    (fun _ => Some (ValueError "unknown url type"))
                    "linear" "lin_api_key" JNull "query" (JObj ∅) []
                    (extra_world ∅ ReplyFault))).
    reflexivity.
  - apply (proj1 (proj2 (post_graphql_single_request extra_loads sample_dumps
                           sample_Request_error DEFAULT_ENDPOINT "lin_api_key" (JBool true)
                           "query" (JObj ∅) [] (extra_world ∅ ReplyFault))));
      reflexivity.
  - refine (eq_trans
              (proj2 (proj2 (post_graphql_single_request extra_loads sample_dumps
                               sample_Request_error DEFAULT_ENDPOINT "lin_api_key"
                               (JStr "bearer") "query" (JObj ∅)
                               [("public-file-urls-expire-in", "60")]
                               (extra_world ∅ (Reply200 "issue by id"))))
                 "Bearer lin_api_key" _ _) _);
      vm_compute; reflexivity.
Defined.

Lemma main_single_request_witness :
  requests (fst (extra_main (extra_args Init None None None)
                            (extra_world {[ DEFAULT_CONFIG := "team config" ]} ReplyFault)))
  = 0.
Proof.
  apply (proj2 (main_single_request extra_loads sample_dumps sample_Path sample_parent
                  sample_Request_error (extra_args Init None None None)
                  (extra_world {[ DEFAULT_CONFIG := "team config" ]} ReplyFault))).
  reflexivity.
Defined.

Lemma resolve_env_path_precedence_witness :
  Script.resolve_env_path sample_Path (Some "ci.env")
    (JObj {[ "envFile" := JStr "stored.env" ]})
    (extra_world {[ ".env" := "A=1" ]} ReplyFault)
  = ([], inr (Some "ci.env")) /\
  Script.resolve_env_path sample_Path (Some EmptyString)
    (JObj {[ "envFile" := JStr "stored.env" ]})
    (extra_world {[ ".env" := "A=1" ]} ReplyFault)
  = ([], inr (Some "stored.env")) /\
  Script.resolve_env_path sample_Path None (JObj ∅)
    (extra_world {[ ".env" := "A=1" ]} ReplyFault)
  = ([EvExists ".env.local"; EvExists ".env"], inr (Some ".env")).
Proof.
  split; [|split].
  - apply (proj1 (resolve_env_path_precedence sample_Path (Some "ci.env")
                    (JObj {[ "envFile" := JStr "stored.env" ]}) ∅
                    (extra_world {[ ".env" := "A=1" ]} ReplyFault)) "ci.env");
      reflexivity.
  - apply (proj1 (proj2 (resolve_env_path_precedence sample_Path (Some EmptyString)
                    (JObj ∅) {[ "envFile" := JStr "stored.env" ]}
                    (extra_world {[ ".env" := "A=1" ]} ReplyFault))) "stored.env");
      reflexivity.
  - refine (eq_trans
              (proj2 (proj2 (resolve_env_path_precedence sample_Path None (JObj ∅) ∅
                    (extra_world {[ ".env" := "A=1" ]} ReplyFault))) _ _) _);
      vm_compute; reflexivity.
Defined.


Lemma init_idempotent_witness :
  exists saved message,
    extra_main (extra_args Init None None None)
               (extra_world {[ DEFAULT_CONFIG := "team config" ]} ReplyFault)
    = ([EvExists DEFAULT_CONFIG; EvReadText DEFAULT_CONFIG;
        EvWriteText DEFAULT_CONFIG saved; EvPrint message], inr tt) /\
    extra_main (extra_args Init None None None)
               (extra_world {[ DEFAULT_CONFIG := "saved config" ]} ReplyFault)
    = ([EvExists DEFAULT_CONFIG; EvReadText DEFAULT_CONFIG;
        EvWriteText DEFAULT_CONFIG saved; EvPrint message], inr tt).
Proof.
  destruct (init_idempotent extra_loads sample_dumps sample_Path sample_parent
              sample_Request_error (extra_args Init None None None)
              (extra_world {[ DEFAULT_CONFIG := "team config" ]} ReplyFault)
              (extra_world {[ DEFAULT_CONFIG := "saved config" ]} ReplyFault)
              [EvExists DEFAULT_CONFIG; EvReadText DEFAULT_CONFIG]
              [EvExists DEFAULT_CONFIG; EvReadText DEFAULT_CONFIG]
              (<["teamKey" := JStr "ENG"]> {[ "workspace" := JStr "old" ]})
              ltac:(reflexivity) ltac:(vm_compute; reflexivity)
              ltac:(vm_compute; reflexivity) ltac:(vm_compute; reflexivity)
              ltac:(vm_compute; reflexivity))
    as (saved & message & H1 & H2 & _).
  exists saved, message. split; [exact H1 | exact H2].
Defined.

Lemma invalid_identifier_rejected_first_witness :
  extra_main (extra_args Issue None None (Some "ENG 42")) (extra_world ∅ ReplyFault)
  = ([EvExists DEFAULT_CONFIG; EvExists ".env.local"; EvExists ".env"],
     inl (invalid_identifier "ENG 42")).
Proof.
  apply (invalid_identifier_rejected_first extra_loads sample_dumps sample_Path
           sample_parent sample_Request_error
           (extra_args Issue None None (Some "ENG 42")) (extra_world ∅ ReplyFault)
           [EvExists DEFAULT_CONFIG] [EvExists ".env.local"; EvExists ".env"] []
           ∅ ∅ "lin_api_key" "ENG 42" (invalid_identifier "ENG 42"));
    try (vm_compute; reflexivity).
  intros H. vm_compute in H. discriminate H.
Defined.

Lemma id_and_identifier_both_given_witness :
  extra_main_issue (extra_args Issue None (Some "abc") (Some "not an identifier"))
                   (JObj ∅) "lin_api_key" [] (extra_world ∅ (Reply200 "issue by id"))
  = ([EvUrlopen {| req_url := DEFAULT_ENDPOINT;
                   req_headers := [("Content-Type", "application/json");
                                   ("Authorization", "lin_api_key")];
                   req_body := "{...}" |}],
     inl (RuntimeError "No issue found for identifier not an identifier")).
Proof.
  apply (id_and_identifier_both_given extra_loads sample_dumps sample_Path sample_parent
           sample_Request_error
           (extra_args Issue None (Some "abc") (Some "not an identifier"))
           ∅ "lin_api_key" [] (extra_world ∅ (Reply200 "issue by id"))
           "abc" "not an identifier" _
           (JObj {[ "data" := JObj {[ "issue" := JObj {[ "id" := JStr "abc" ]} ]} ]}));
    vm_compute; reflexivity.
Defined.

Lemma listing_id_source_witness :
  extra_main (extra_args Project None None None) (extra_world ∅ ReplyFault)
  = ([EvExists DEFAULT_CONFIG; EvExists ".env.local"; EvExists ".env"],
     inl (SystemExit 2 "project requires --id or config projectId")).
Proof.
  apply (listing_id_source extra_loads sample_dumps sample_Path sample_parent
           sample_Request_error
           (extra_args Project None None None) (extra_world ∅ ReplyFault)
           [EvExists DEFAULT_CONFIG] [EvExists ".env.local"; EvExists ".env"] []
           ∅ ∅ "lin_api_key" "project" "projectId");
    try (vm_compute; reflexivity).
  - left. repeat split.
  - intros H. vm_compute in H. discriminate H.
Defined.

Lemma parse_variables_sources_witness :
  Script.parse_variables extra_loads sample_Path (Some EmptyString)
    (extra_world {[ "vars.json" := "team config" ]} ReplyFault)
  = ([], inr (JObj ∅)) /\
  Script.parse_variables extra_loads sample_Path (Some "@gone.json")
    (extra_world {[ "vars.json" := "team config" ]} ReplyFault)
  = ([EvReadText "gone.json"], inl (OSError "gone.json")) /\
  Script.parse_variables extra_loads sample_Path (Some "vars.json")
    (extra_world {[ "vars.json" := "team config" ]} ReplyFault)
  = ([EvExists "vars.json"; EvReadText "vars.json"],
     inr (JObj (<["teamKey" := JStr "ENG"]> {[ "workspace" := JStr "old" ]}))).
Proof.
  split; [|split].
  - apply (proj1 (parse_variables_sources extra_loads sample_Path (Some EmptyString)
                    (extra_world {[ "vars.json" := "team config" ]} ReplyFault)));
      reflexivity.
  - apply (proj1 (proj2 (parse_variables_sources extra_loads sample_Path (Some "@gone.json")
                    (extra_world {[ "vars.json" := "team config" ]} ReplyFault)))
                 "@gone.json"); vm_compute; reflexivity.
  - refine (eq_trans
              (proj2 (proj2 (parse_variables_sources extra_loads sample_Path
                    (Some "vars.json")
                    (extra_world {[ "vars.json" := "team config" ]} ReplyFault)))
                 "vars.json" "team config" _ _ _ _) _); vm_compute; reflexivity.
Defined.

Lemma write_output_sinks_witness :
  Script.write_output sample_dumps sample_Path sample_parent (JObj ∅) (Some "-")
    (extra_world ∅ ReplyFault)
  = ([EvPrint "{...}"], inr tt) /\
  Script.write_output sample_dumps sample_Path sample_parent (JObj ∅) (Some "out/issue.json")
    (extra_world ∅ ReplyFault)
  = ([EvExists "."; EvWriteText "out/issue.json" ("{...}" ++ String newline EmptyString)],
     inr tt) /\
  Script.write_output sample_dumps sample_Path sample_parent (JObj ∅) (Some "out/issue.json")
    read_only_world
  = ([EvExists "."], inl (OSError ".")) /\
  Script.write_output sample_dumps sample_Path sample_parent (JObj ∅) (Some ".")
    (extra_world ∅ ReplyFault)
  = ([EvExists "."], inl (OSError ".")).
Proof.
  split; [|split; [|split]].
  - apply (proj1 (write_output_sinks sample_dumps sample_Path sample_parent (JObj ∅)
                    (Some "-") (extra_world ∅ ReplyFault))). right. reflexivity.
  - refine (eq_trans
              (proj1 (proj2 (write_output_sinks sample_dumps sample_Path sample_parent
                    (JObj ∅) (Some "out/issue.json") (extra_world ∅ ReplyFault)))
                 "out/issue.json" _ _ _ _ _) _);
      [reflexivity | reflexivity | discriminate | vm_compute; reflexivity
      | intros H; vm_compute in H; discriminate H | vm_compute; reflexivity].
  - refine (eq_trans
              (proj1 (proj2 (proj2 (write_output_sinks sample_dumps sample_Path
                    sample_parent (JObj ∅) (Some "out/issue.json") read_only_world)))
                 "out/issue.json" (OSError ".") _ _ _ _ _) _);
      [reflexivity | reflexivity | discriminate | vm_compute; reflexivity
      | vm_compute; reflexivity | reflexivity].
  - refine (eq_trans
              (proj2 (proj2 (proj2 (write_output_sinks sample_dumps sample_Path
                    sample_parent (JObj ∅) (Some ".") (extra_world ∅ ReplyFault))))
                 "." (OSError ".") _ _ _ _ _) _);
      [reflexivity | reflexivity | discriminate
      | intros H; vm_compute in H; discriminate H | vm_compute; reflexivity
      | vm_compute; reflexivity].
Defined.


